(** * streamdeck: key translation, handler dispatch and image pages

    A shallow embedding of [streamdeck.go] and [streamdeck15.go] (with the
    helpers [writePage] and [loadImage]).  The driver file exists in two
    revisions: the first translates keys with two [switch] tables
    ([internalIdToKey], [keyToInternalId]), the second with the closed
    formula [invertKeyOrId].  Both are embedded, in [Rev1] and [Rev2]; the
    code they share textually (handler registry, [dispatchKey],
    [writePage], [loadImage]) is embedded once.

    Go's [byte] is an integer in [Z] with the wrap-around written out. *)

From stdpp Require Import base list sorting gmap strings pretty.
From Stdlib Require Import ZArith Lia Ascii.

Local Open Scope Z_scope.

(** ** Bytes *)

(** Conversion to [byte] and the wrap-around of [uint8] arithmetic. *)
Definition byte_of (z : Z) : Z := z mod 256.

Definition is_byte (z : Z) : Prop := 0 <= z < 256.

(** ** Errors ([github.com/pkg/errors]) *)

(** The three package-level errors of [streamdeck.go], an error value made
    by an external package ([hid], [os], [image]), and the two wrappers of
    [pkg/errors] that the driver uses. *)
Inductive error : Type :=
  | ErrUnknownDevice
  | ErrNoDevices
  | ErrInvalidKey
  | ErrExternal (msg : string)
  | WithStackOf (cause : error)
  | WrapfOf (cause : error) (msg : string).

Module errors.

(** [errors.WithStack(nil)] and [errors.Wrapf(nil, ...)] are [nil]. *)
Definition WithStack (err : option error) : option error :=
  WithStackOf <$> err.

Definition Wrapf (err : option error) (msg : string) : option error :=
  (fun e => WrapfOf e msg) <$> err.

End errors.

(** ** The transport ([github.com/dizzyd/hid]), as a simulated device

    The device is external.  It is modelled by the log of the buffers handed
    to [Write], in order, and by two scripts that fix what the next calls of
    [Write] and [ReadTimeout] answer; an exhausted write script accepts every
    write, an exhausted read script delivers nothing. *)

Module hid.

Inductive ReadOutcome : Type :=
  | ReadData (data : list Z)
  | ReadFails (e : error).

Record Device : Type := mkDevice {
  written : list (list Z);
  write_script : list (option error);
  read_script : list ReadOutcome
}.

(** [device.Write(b)]; the byte count it returns is dropped by the caller. *)
Definition Write (b : list Z) (d : Device) : Device * option error :=
  match write_script d with
  | [] => (mkDevice (written d ++ [b]) [] (read_script d), None)
  | o :: rest => (mkDevice (written d ++ [b]) rest (read_script d), o)
  end.

(** [device.ReadTimeout(b, timeout)]: the delivered bytes are copied to the
    front of [b], as many as fit; the result is the buffer, the number of
    bytes read and the error. *)
Definition ReadTimeout (b : list Z) (timeout : Z) (d : Device)
  : Device * (list Z * Z * option error) :=
  match read_script d with
  | [] => (d, (b, 0, None))
  | ReadData data :: rest =>
      let n := Nat.min (length data) (length b) in
      (mkDevice (written d) (write_script d) rest,
       (take n data ++ drop n b, Z.of_nat n, None))
  | ReadFails e :: rest =>
      (mkDevice (written d) (write_script d) rest, (b, 0, Some e))
  end.

End hid.

(** ** Decoded images ([image.Image]) and byte slices *)

Module image.

Record Rectangle : Type := mkRectangle {
  MinX : Z; MinY : Z; MaxX : Z; MaxY : Z
}.

(** [At x y] stands for [img.At(x, y).RGBA()]: the four [uint32] channels. *)
Record Image : Type := mkImage {
  Bounds : Rectangle;
  At : Z -> Z -> Z * Z * Z * Z
}.

End image.

(** A [[]byte]: its elements and the spare capacity behind them
    ([cap = len + spare]); the spare part of the backing array holds zeros,
    as left by [make] and by the growth of [append]. *)
Record slice : Type := mkSlice {
  elems : list Z;
  spare : nat
}.

(** [s[:hi]], allowed up to the capacity. *)
Definition slice_upto (s : slice) (hi : nat) : option (list Z) :=
  if decide (hi ≤ length (elems s) + spare s)%nat
  then Some (take hi (elems s ++ replicate (spare s) 0))
  else None.

(** [s[lo:]], allowed up to the length. *)
Definition slice_from (s : slice) (lo : nat) : option (list Z) :=
  if decide (lo ≤ length (elems s))%nat
  then Some (drop lo (elems s))
  else None.

(** What lies outside the program: the outcome of [os.Open] followed by
    [image.Decode] for a file name, and the spare capacity that the run time
    leaves behind a slice grown by [append] to a given length. *)
Record Env : Type := mkEnv {
  decode : string -> error + image.Image;
  append_spare : nat -> nat
}.

(** A call either returns its [error] result ([None] is [nil]) or panics on
    a slice expression out of range. *)
Inductive result : Type :=
  | Returns (err : option error)
  | Panics.

(** ** The deck and the code shared by both revisions *)

Section Driver.

Context {W : Type}.

(** [type KeyPressFn func(key byte) bool]: a closure over the caller's
    state [W].  Handlers act on that state only; they do not call back into
    the deck. *)
Definition KeyPressFn : Type := Z -> W -> bool * W.

(** [streamDeckBase] ([device], [handlers]) together with what a run can
    observe from outside: the caller's state, the key argument of every
    handler invocation in order, and the lines printed. *)
Record State : Type := mkState {
  env : Env;
  device : hid.Device;
  handlers : gmap Z KeyPressFn;
  world : W;
  calls : list Z;
  stdout : list string
}.

Definition with_device (d : hid.Device) (s : State) : State :=
  mkState (env s) d (handlers s) (world s) (calls s) (stdout s).

Definition with_handlers (h : gmap Z KeyPressFn) (s : State) : State :=
  mkState (env s) (device s) h (world s) (calls s) (stdout s).

Definition newStreamDeckBase (e : Env) (d : hid.Device) (w : W) : State :=
  mkState e d ∅ w [] [].

Definition SetGlobalKeyHandler (fn : KeyPressFn) (s : State) : State :=
  with_handlers (<[255 := fn]> (handlers s)) s.

Definition ClearGlobalKeyHandler (s : State) : State :=
  with_handlers (delete 255 (handlers s)) s.

Definition SetKeyHandler (key : Z) (fn : KeyPressFn) (s : State)
  : State * option error :=
  if (key <? 0) || (14 <? key)
  then (s, errors.WithStack (Some ErrInvalidKey))
  else (with_handlers (<[key := fn]> (handlers s)) s, None).

Definition ClearKeyHandler (key : Z) (s : State) : State * option error :=
  if (key <? 0) || (14 <? key)
  then (s, errors.WithStack (Some ErrInvalidKey))
  else (with_handlers (delete key (handlers s)) s, None).

Definition dispatchKey (key : Z) (s : State) : State :=
  match lookup (M:=gmap Z KeyPressFn) (A:=KeyPressFn) key (handlers s) with
  | Some handler =>
      let '(keep, w) := handler key (world s) in
      let s1 := mkState (env s) (device s) (handlers s) w
                        (calls s ++ [key]) (stdout s) in
      if negb keep then with_handlers (delete key (handlers s1)) s1 else s1
  | None => s
  end.

Definition writePage (header payload : list Z) (d : hid.Device)
  : hid.Device * option error :=
  let page := [] ++ header in
  let page := page ++ payload in
  let '(d1, err) := hid.Write page d in
  (d1, errors.WithStack err).

Definition loadImage (e : Env) (filename : string)
  : option image.Image * option error :=
  if decide (filename = "") then (None, None)
  else match decode e filename with
       | inl err => (None, errors.WithStack (Some err))
       | inr img => (Some img, None)
       end.

(** The scanline walk: [y] from [Min.Y] up to [Max.Y - 1], [x] from [Max.X]
    down to [Min.X + 1], appending [byte(b), byte(g), byte(r)]. *)
Definition scanImage (img : image.Image) : list Z :=
  let bounds := image.Bounds img in
  flat_map (fun y =>
    flat_map (fun i =>
      let x := image.MaxX bounds - i in
      let '(r, g, b, _) := image.At img x y in
      [byte_of b; byte_of g; byte_of r])
      (seqZ 0 (image.MaxX bounds - image.MinX bounds)))
    (seqZ (image.MinY bounds) (image.MaxY bounds - image.MinY bounds)).

(** [imageBytes] after the [if img != nil ... else ...] of [SetKeyImage];
    with no pixel appended the slice is still [nil], of capacity 0. *)
Definition imageBytesOf (e : Env) (img : option image.Image) : slice :=
  match img with
  | Some i =>
      let bs := scanImage i in
      mkSlice bs (match bs with
                  | [] => 0%nat
                  | _ => append_spare e (length bs)
                  end)
  | None => mkSlice (replicate (72 * 72 * 3) 0) 0
  end.

Definition header1 (id : Z) : list Z :=
  [ 0x02; 0x01; 0x01; 0x00; 0x00; id; 0x00; 0x00;
    0x00; 0x00; 0x00; 0x00; 0x00; 0x00; 0x00; 0x00;
    0x42; 0x4d; 0xf6; 0x3c; 0x00; 0x00; 0x00; 0x00;
    0x00; 0x00; 0x36; 0x00; 0x00; 0x00; 0x28; 0x00;
    0x00; 0x00; 0x48; 0x00; 0x00; 0x00; 0x48; 0x00;
    0x00; 0x00; 0x01; 0x00; 0x18; 0x00; 0x00; 0x00;
    0x00; 0x00; 0xc0; 0x3c; 0x00; 0x00; 0xc4; 0x0e;
    0x00; 0x00; 0xc4; 0x0e; 0x00; 0x00; 0x00; 0x00;
    0x00; 0x00; 0x00; 0x00; 0x00; 0x00 ].

Definition header2 (id : Z) : list Z :=
  [ 0x02; 0x01; 0x02; 0x00; 0x01; id; 0x00; 0x00;
    0x00; 0x00; 0x00; 0x00; 0x00; 0x00; 0x00; 0x00 ].

Definition imageBytesOnPage1 : nat := 2583 * 3.

(** The body of [SetKeyImage] from [loadImage] on; it is the same text in
    both revisions, which differ in how [id] is obtained. *)
Definition sendKeyImage (id : Z) (filename : string) (s : State)
  : State * result :=
  match loadImage (env s) filename with
  | (_, Some err) => (s, Returns (Some err))
  | (img, None) =>
      let imageBytes := imageBytesOf (env s) img in
      match slice_upto imageBytes imageBytesOnPage1 with
      | None => (s, Panics)
      | Some payload1 =>
          let '(d1, err) := writePage (header1 id) payload1 (device s) in
          match err with
          | Some _ =>
              (with_device d1 s, Returns (errors.Wrapf err "failed to write page 1"))
          | None =>
              match slice_from imageBytes imageBytesOnPage1 with
              | None => (with_device d1 s, Panics)
              | Some payload2 =>
                  let '(d2, err) := writePage (header2 id) payload2 d1 in
                  match err with
                  | Some _ =>
                      (with_device d2 s,
                       Returns (errors.Wrapf err "failed to write page 2"))
                  | None => (with_device d2 s, Returns None)
                  end
              end
          end
      end
  end.

(** [for id, state := range report[1:]]: the index-value pairs in order. *)
Definition range (l : list Z) : list (Z * Z) :=
  zip (seqZ 0 (Z.of_nat (length l))) l.

Definition newline : string := String "010"%char EmptyString.

(** [fmt.Printf("Ignoring unexpected report from device: %d\n", reportId)]. *)
Definition unexpected_report (reportId : Z) : string :=
  "Ignoring unexpected report from device: " +:+ pretty reportId +:+ newline.

(** [ProcessEvents]; the revisions differ in the translator [toKey] applied
    to the native id ([internalIdToKey], then [invertKeyOrId]). *)
Definition processEvents (toKey : Z -> Z) (timeout : Z) (s : State)
  : State * option error :=
  let report := replicate 16 0 in
  let '(d, (report, bytes, err)) := hid.ReadTimeout report timeout (device s) in
  let s := with_device d s in
  match err with
  | Some _ => (s, errors.Wrapf err "error reading key press")
  | None =>
      if 0 <? bytes then
        let reportId := default 0 (report !! 0%nat) in
        if reportId =? 1 then
          (foldl (fun st '(id, state) =>
                    let key := toKey (byte_of id) in
                    if state =? 1
                    then dispatchKey key (dispatchKey 255 st)
                    else st)
                 s (range (drop 1 report)),
           None)
        else
          (mkState (env s) (device s) (handlers s) (world s) (calls s)
                   (stdout s ++ [unexpected_report reportId]),
           None)
      else (s, None)
  end.

(** The native ids that [range report[1:]] meets with state 1, in the order
    of the loop. *)
Definition pressed (report : list Z) : list Z :=
  (filter (fun p => p.2 = 1) (range (drop 1 report))).*1.

(** One press as the loop body handles it: the global slot, then the key. *)
Definition press (toKey : Z -> Z) (st : State) (id : Z) : State :=
  dispatchKey (toKey (byte_of id)) (dispatchKey 255 st).

End Driver.

Arguments KeyPressFn : clear implicits.
Arguments State : clear implicits.

(** ** First revision of [streamdeck15.go] *)

Module Rev1.

Definition internalIdToKey (id : Z) : Z :=
  match id with
  | 0 => 4
  | 1 => 3
  | 2 => 2
  | 3 => 1
  | 4 => 0
  | 5 => 9
  | 6 => 8
  | 7 => 7
  | 8 => 6
  | 9 => 5
  | 10 => 14
  | 11 => 13
  | 12 => 12
  | 13 => 11
  | 14 => 10
  | _ => 255
  end.

Definition keyToInternalId (key : Z) : Z :=
  match key with
  | 4 => 0
  | 3 => 1
  | 2 => 2
  | 1 => 3
  | 0 => 4
  | 9 => 5
  | 8 => 6
  | 7 => 7
  | 6 => 8
  | 5 => 9
  | 14 => 10
  | 13 => 11
  | 12 => 12
  | 11 => 13
  | 10 => 14
  | _ => 255
  end.

Definition SetKeyImage {W} (key : Z) (filename : string) (s : State W)
  : State W * result :=
  let id := keyToInternalId key in
  if id =? 255 then (s, Returns (errors.WithStack (Some ErrInvalidKey)))
  else sendKeyImage id filename s.

Definition ClearKeyImage {W} (key : Z) (s : State W) : State W * result :=
  SetKeyImage key "" s.

Definition ProcessEvents {W} (timeout : Z) (s : State W)
  : State W * option error :=
  processEvents internalIdToKey timeout s.

End Rev1.

(** ** Second revision of [streamdeck15.go] *)

Module Rev2.

Definition columns : Z := 5.

(** [col := value % columns; return (value - col) + ((columns - 1) - col)],
    every operation on [byte]. *)
Definition invertKeyOrId (value : Z) : Z :=
  let col := value mod columns in
  byte_of (byte_of (value - col) + byte_of (byte_of (columns - 1) - col)).

(** "The deck uses 1-based numbering for images, so we invert the key into
    an id and make sure to add one". *)
Definition SetKeyImage {W} (key : Z) (filename : string) (s : State W)
  : State W * result :=
  let id := byte_of (invertKeyOrId key + 1) in
  sendKeyImage id filename s.

Definition ClearKeyImage {W} (key : Z) (s : State W) : State W * result :=
  SetKeyImage key "" s.

Definition ProcessEvents {W} (timeout : Z) (s : State W)
  : State W * option error :=
  processEvents invertKeyOrId timeout s.

End Rev2.

(** ** A simulated deck for the closed examples *)

Module Sample.

(** No file can be opened; [append] leaves no spare capacity. *)
Definition env : Env :=
  mkEnv (fun _ => inl (ErrExternal "open: no such file or directory"))
        (fun _ => 0%nat).

(** A device that accepts every write and has nothing to deliver. *)
Definition quiet : hid.Device := hid.mkDevice [] [] [].

(** A freshly opened deck; the caller's state is a counter. *)
Definition start : State nat := newStreamDeckBase env quiet 0%nat.

(** A handler that counts its invocation and asks to be removed. *)
Definition once : KeyPressFn nat := fun _ n => (false, S n).

(** A handler that counts by ten and stays registered. *)
Definition keep : KeyPressFn nat := fun _ n => (true, (n + 10)%nat).

(** A device whose first write fails, and one whose second write fails. *)
Definition broken1 : hid.Device :=
  hid.mkDevice [] [Some (ErrExternal "hid: write failed")] [].

Definition broken2 : hid.Device :=
  hid.mkDevice [] [None; Some (ErrExternal "hid: write failed")] [].

(** A device about to deliver a key-state report with native keys 0 and 3
    pressed, then a report of an unknown type, then an empty read. *)
Definition pressing : hid.Device :=
  hid.mkDevice [] [] [hid.ReadData [1; 1; 0; 0; 1]; hid.ReadData [3; 1];
                      hid.ReadData []].

(** The deck with a global handler that stays and a one-shot handler on
    logical key 4 (native id 0), on the device [pressing]. *)
Definition armed : State nat :=
  SetGlobalKeyHandler keep
    (SetKeyHandler 4 once (newStreamDeckBase env pressing 0%nat)).1.

End Sample.

(** ** Discovery ([OpenStreamDeck] in [streamdeck.go]) *)

Definition vendor : Z := 4057.

Definition streamDeck15Id : Z := 96.

(** An entry of [hid.Enumerate(vendor, 0)], with the outcome that
    [deviceInfo.Open()] has for it. *)
Record DeviceInfo : Type := mkDeviceInfo {
  VendorID : Z;
  ProductID : Z;
  Open : error + hid.Device
}.

(** [OpenStreamDeck], given the list that [hid.Enumerate(vendor, 0)]
    returned.  Every path through the body of its [for ... range devices]
    returns, so the loop never reaches a second entry.  The error made by
    [errors.New(fmt.Sprintf(...))] is a fresh value carrying its message. *)
Definition OpenStreamDeck {W} (e : Env) (w : W) (devices : list DeviceInfo)
  : error + State W :=
  match devices with
  | deviceInfo :: _ =>
      match Open deviceInfo with
      | inl err =>
          inl (WrapfOf err ("failed to open device "
                            +:+ pretty (VendorID deviceInfo) +:+ "-"
                            +:+ pretty (ProductID deviceInfo)))
      | inr device =>
          if ProductID deviceInfo =? streamDeck15Id
          then inr (newStreamDeckBase e device w)
          else inl (ErrExternal ("unknown device "
                                 +:+ pretty (VendorID deviceInfo) +:+ "-"
                                 +:+ pretty (ProductID deviceInfo)))
      end
  | [] => inl ErrNoDevices
  end.

(** ** Notions used to state further properties *)

(** The slots a handler can live in: a logical key of the 15-key layout or
    the slot 255 of the global handler. *)
Definition valid_slot (k : Z) : Prop := 0 <= k <= 14 \/ k = 255.

Definition registry_ok {W} (s : State W) : Prop :=
  forall k, is_Some (handlers s !! k) -> valid_slot k.

(** Width and height of the bounds of an image, as the loops of
    [SetKeyImage] count them. *)
Definition width (img : image.Image) : Z :=
  image.MaxX (image.Bounds img) - image.MinX (image.Bounds img).

Definition height (img : image.Image) : Z :=
  image.MaxY (image.Bounds img) - image.MinY (image.Bounds img).

(** ** Images and files for the closed examples *)

Module Fixture.

(** A 72 x 72 image whose channels encode the coordinates. *)
Definition gradient : image.Image :=
  image.mkImage (image.mkRectangle 0 0 72 72)
                (fun x y => (x * 257, y * 257, (x + y) * 257, 65535)).

(** The same image with another colour in its leftmost column [x = 0]. *)
Definition gradient' : image.Image :=
  image.mkImage (image.mkRectangle 0 0 72 72)
                (fun x y => if x =? 0 then (65535, 0, 0, 65535)
                            else (x * 257, y * 257, (x + y) * 257, 65535)).

(** A 2 x 2 image, too small to fill the first page. *)
Definition tiny : image.Image :=
  image.mkImage (image.mkRectangle 0 0 2 2) (fun _ _ => (65535, 0, 0, 65535)).

(** A file system with two images; no other file can be opened.  [append]
    leaves room for 8000 more bytes behind a slice it has grown. *)
Definition env : Env :=
  mkEnv (fun name => if decide (name = "key.png") then inr gradient
                     else if decide (name = "tiny.png") then inr tiny
                     else inl (ErrExternal "open: no such file or directory"))
        (fun _ => Z.to_nat 8000).

Definition start : State nat := newStreamDeckBase env Sample.quiet 0%nat.

(** What [hid.Enumerate] may find: a StreamDeck with 15 keys, a device of
    the same vendor with another product id, and a deck that cannot be
    opened. *)
Definition deck15 : DeviceInfo := mkDeviceInfo vendor streamDeck15Id (inr Sample.quiet).

Definition other : DeviceInfo := mkDeviceInfo vendor 99 (inr Sample.quiet).

Definition locked : DeviceInfo :=
  mkDeviceInfo vendor streamDeck15Id (inl (ErrExternal "hidapi: failed to open device")).

End Fixture.

(** * Properties *)

(** ** Helper facts on the translators *)

Lemma small_key_cases (v : Z) :
  0 <= v <= 14 ->
  v = 0 \/ v = 1 \/ v = 2 \/ v = 3 \/ v = 4 \/ v = 5 \/ v = 6 \/ v = 7 \/
  v = 8 \/ v = 9 \/ v = 10 \/ v = 11 \/ v = 12 \/ v = 13 \/ v = 14.
Proof. lia. Qed.

Ltac key_cases H :=
  apply small_key_cases in H;
  repeat (destruct H as [H | H]; [subst | ]); [ .. | subst ].

Lemma invertKeyOrId_no_wrap (v : Z) :
  0 <= v < 255 ->
  Rev2.invertKeyOrId v = v - 2 * (v mod 5) + 4.
Proof.
  intros Hv. unfold Rev2.invertKeyOrId, Rev2.columns, byte_of.
  pose proof (Z.mod_pos_bound v 5 ltac:(lia)) as Hc.
  pose proof (Z.div_mod v 5 ltac:(lia)) as Hd.
  assert (Hq : 0 <= v / 5 <= 50) by lia.
  rewrite (Z.mod_small (5 - 1) 256) by lia.
  rewrite (Z.mod_small (v - v mod 5) 256) by lia.
  rewrite (Z.mod_small (5 - 1 - v mod 5) 256) by lia.
  rewrite Z.mod_small by lia. lia.
Qed.

Lemma invertKeyOrId_byte (v : Z) : is_byte (Rev2.invertKeyOrId v).
Proof. unfold Rev2.invertKeyOrId, byte_of, is_byte. apply Z.mod_pos_bound. lia. Qed.

Lemma invertKeyOrId_same_row (v : Z) :
  0 <= v < 255 ->
  Rev2.invertKeyOrId v / 5 = v / 5 /\
  Rev2.invertKeyOrId v mod 5 = 4 - v mod 5.
Proof.
  intros Hv. rewrite invertKeyOrId_no_wrap by lia.
  pose proof (Z.mod_pos_bound v 5 ltac:(lia)) as Hc.
  pose proof (Z.div_mod v 5 ltac:(lia)) as Hd.
  assert (E : v - 2 * (v mod 5) + 4 = (4 - v mod 5) + (v / 5) * 5) by lia.
  rewrite E. split.
  - rewrite Z.div_add by lia. rewrite Z.div_small by lia. lia.
  - rewrite Z.mod_add by lia. apply Z.mod_small. lia.
Qed.

(** The formula never produces 255, whatever byte it is given. *)
Lemma invertKeyOrId_never_255 (v : Z) :
  is_byte v -> Rev2.invertKeyOrId v <> 255.
Proof.
  intros Hv. destruct (Z.eq_dec v 255) as [-> | Hne]; [ vm_compute; discriminate | ].
  assert (Hv' : 0 <= v < 255) by (unfold is_byte in Hv; lia).
  destruct (invertKeyOrId_same_row v Hv') as [Hq Hr].
  intros E. rewrite E in Hq, Hr.
  change (255 mod 5) with 0 in Hr. change (255 / 5) with 51 in Hq.
  pose proof (Z.div_mod v 5 ltac:(lia)). lia.
Qed.

Lemma table_default (v : Z) :
  14 < v -> Rev1.internalIdToKey v = 255 /\ Rev1.keyToInternalId v = 255.
Proof.
  intros Hv. destruct v as [ | p | p ]; [ lia | | lia ].
  do 4 (destruct p as [ p | p | ]; try lia; try (split; reflexivity)).
Qed.


(** ** Claims on the translators *)

(** C1: on the valid range of the 15-key layout, [0 <= v <= 14], translating
    twice gives [v] back.  This holds for the formula [invertKeyOrId] of the
    second revision and for each table of the first (and the two tables are
    inverse to each other and agree with the formula there). *)
Theorem translate_involution (v : Z) :
  0 <= v <= 14 ->
  Rev2.invertKeyOrId (Rev2.invertKeyOrId v) = v /\
  Rev1.internalIdToKey (Rev1.internalIdToKey v) = v /\
  Rev1.keyToInternalId (Rev1.keyToInternalId v) = v /\
  Rev1.internalIdToKey (Rev1.keyToInternalId v) = v /\
  Rev1.keyToInternalId (Rev1.internalIdToKey v) = v /\
  Rev1.internalIdToKey v = Rev2.invertKeyOrId v /\
  0 <= Rev2.invertKeyOrId v <= 14.
Proof.
  intros Hv. key_cases Hv; vm_compute; intuition congruence.
Qed.

Lemma translate_involution_witness :
  0 <= 7 <= 14 /\ Rev2.invertKeyOrId (Rev2.invertKeyOrId 7) = 7.
Proof. split; [ lia | apply (translate_involution 7); lia ]. Defined.

(** C9, as the code has it: for every byte [v > 14] the tables of the first
    revision give the invalid-key value 255; the formula of the second
    revision has no such value: it never yields 255, and below 255 it
    mirrors [v] inside its row of five, so the result stays above 14. *)
Theorem translate_out_of_range (v : Z) :
  14 < v -> is_byte v ->
  Rev1.internalIdToKey v = 255 /\
  Rev1.keyToInternalId v = 255 /\
  Rev2.invertKeyOrId v <> 255 /\
  (v < 255 ->
   Rev2.invertKeyOrId v = v - 2 * (v mod 5) + 4 /\ 14 < Rev2.invertKeyOrId v).
Proof.
  intros Hlo Hb. destruct (table_default v Hlo) as [H1 H2].
  split; [ exact H1 | split; [ exact H2 | split ] ].
  - by apply invertKeyOrId_never_255.
  - intros Hhi. assert (Hv : 0 <= v < 255) by lia.
    split; [ by apply invertKeyOrId_no_wrap | ].
    destruct (invertKeyOrId_same_row v Hv) as [Hq _].
    pose proof (invertKeyOrId_byte v) as Hr. unfold is_byte in Hr.
    pose proof (Z.div_mod (Rev2.invertKeyOrId v) 5 ltac:(lia)) as Hd.
    pose proof (Z.mod_pos_bound (Rev2.invertKeyOrId v) 5 ltac:(lia)).
    pose proof (Z.div_mod v 5 ltac:(lia)).
    pose proof (Z.mod_pos_bound v 5 ltac:(lia)).
    rewrite Hq in Hd. lia.
Qed.

Lemma translate_out_of_range_witness :
  14 < 15 /\ is_byte 15 /\ Rev1.internalIdToKey 15 = 255 /\
  Rev2.invertKeyOrId 15 <> 255.
Proof.
  assert (Hlo : 14 < 15) by lia.
  assert (Hb : is_byte 15) by (unfold is_byte; lia).
  destruct (translate_out_of_range 15 Hlo Hb) as (H1 & _ & H3 & _).
  exact (conj Hlo (conj Hb (conj H1 H3))).
Defined.

(** C9 as stated fails for the formula: 15 is translated to 19, not 255. *)
Lemma translate_out_of_range_counterexample :
  ~ (forall v : Z, 14 < v -> is_byte v -> Rev2.invertKeyOrId v = 255).
Proof.
  intros H. specialize (H 15 ltac:(lia) ltac:(unfold is_byte; lia)).
  vm_compute in H. discriminate.
Qed.

(** ** The handler registry and [dispatchKey] *)

Section Registry.

Context {W : Type}.
Implicit Types (s : State W) (fn : KeyPressFn W) (k key : Z).

Lemma dispatchKey_absent s k :
  handlers s !! k = None -> dispatchKey k s = s.
Proof. intros H. unfold dispatchKey. by rewrite H. Qed.

Lemma dispatchKey_present s k fn :
  handlers s !! k = Some fn ->
  dispatchKey k s =
    mkState (env s) (device s)
            (if (fn k (world s)).1 then handlers s else delete k (handlers s))
            (fn k (world s)).2 (calls s ++ [k]) (stdout s).
Proof.
  intros H. unfold dispatchKey. rewrite H.
  destruct (fn k (world s)) as [[] w]; reflexivity.
Qed.

Lemma dispatchKey_calls s k :
  calls (dispatchKey k s) =
  calls s ++ match handlers s !! k with Some _ => [k] | None => [] end.
Proof.
  destruct (handlers s !! k) as [fn|] eqn:E.
  - by rewrite (dispatchKey_present _ _ _ E).
  - rewrite (dispatchKey_absent _ _ E). by rewrite app_nil_r.
Qed.

Lemma dispatchKey_other s k k' :
  k <> k' -> handlers (dispatchKey k s) !! k' = handlers s !! k'.
Proof.
  intros Hne. destruct (handlers s !! k) as [fn|] eqn:E.
  - rewrite (dispatchKey_present _ _ _ E). simpl.
    destruct (fn k (world s)).1; [ done | by rewrite lookup_delete_ne ].
  - by rewrite (dispatchKey_absent _ _ E).
Qed.

Lemma dispatchKey_frame s k :
  env (dispatchKey k s) = env s /\ device (dispatchKey k s) = device s /\
  stdout (dispatchKey k s) = stdout s.
Proof.
  destruct (handlers s !! k) as [fn|] eqn:E.
  - by rewrite (dispatchKey_present _ _ _ E).
  - by rewrite (dispatchKey_absent _ _ E).
Qed.

Lemma key_guard_rejects key :
  key < 0 \/ 14 < key -> (key <? 0) || (14 <? key) = true.
Proof.
  intros [H | H]; apply orb_true_iff; [ left | right ]; by apply Z.ltb_lt.
Qed.

Lemma key_guard_accepts key :
  0 <= key <= 14 -> (key <? 0) || (14 <? key) = false.
Proof.
  intros H. apply orb_false_iff. split; apply Z.ltb_ge; lia.
Qed.

(** The per-key operations of both revisions refuse a key outside
    [0, 14], and so does [SetKeyImage] in the first revision. *)
Lemma invalid_key_rejected s fn key filename :
  is_byte key -> 14 < key ->
  SetKeyHandler key fn s = (s, Some (WithStackOf ErrInvalidKey)) /\
  ClearKeyHandler key s = (s, Some (WithStackOf ErrInvalidKey)) /\
  Rev1.SetKeyImage key filename s =
    (s, Returns (Some (WithStackOf ErrInvalidKey))).
Proof.
  intros Hb Hk. unfold SetKeyHandler, ClearKeyHandler, Rev1.SetKeyImage.
  rewrite key_guard_rejects by lia.
  destruct (table_default key Hk) as [_ ->]. done.
Qed.

End Registry.

(** C2, at the inputs where the code departs from it.  [SetKeyHandler] and
    [ClearKeyHandler] return the invalid-key error for 15 and for 255, and
    so does [SetKeyImage] of the first revision.  [SetKeyImage] of the
    second revision has no check: on a device that accepts the writes it
    returns [nil] for key 15 after writing both pages with id byte 20, and
    for key 255 after writing them with id byte 4. *)
Theorem SetKeyImage_unchecked_key :
  (forall (s : State nat) fn filename,
     SetKeyHandler 15 fn s = (s, Some (WithStackOf ErrInvalidKey)) /\
     SetKeyHandler 255 fn s = (s, Some (WithStackOf ErrInvalidKey)) /\
     ClearKeyHandler 15 s = (s, Some (WithStackOf ErrInvalidKey)) /\
     ClearKeyHandler 255 s = (s, Some (WithStackOf ErrInvalidKey)) /\
     Rev1.SetKeyImage 15 filename s =
       (s, Returns (Some (WithStackOf ErrInvalidKey))) /\
     Rev1.SetKeyImage 255 filename s =
       (s, Returns (Some (WithStackOf ErrInvalidKey)))) /\
  (Rev2.SetKeyImage 15 "" Sample.start).2 = Returns None /\
  hid.written (device (Rev2.SetKeyImage 15 "" Sample.start).1) =
    [header1 20 ++ replicate (Z.to_nat 7749) 0;
     header2 20 ++ replicate (Z.to_nat 7803) 0] /\
  (Rev2.SetKeyImage 255 "" Sample.start).2 = Returns None /\
  hid.written (device (Rev2.SetKeyImage 255 "" Sample.start).1) =
    [header1 4 ++ replicate (Z.to_nat 7749) 0;
     header2 4 ++ replicate (Z.to_nat 7803) 0].
Proof.
  split.
  - intros s fn filename.
    assert (H15 : is_byte 15 /\ 14 < 15) by (unfold is_byte; lia).
    assert (H255 : is_byte 255 /\ 14 < 255) by (unfold is_byte; lia).
    destruct (invalid_key_rejected s fn 15 filename (proj1 H15) (proj2 H15))
      as (A1 & A2 & A3).
    destruct (invalid_key_rejected s fn 255 filename (proj1 H255) (proj2 H255))
      as (B1 & B2 & B3).
    repeat split; assumption.
  - repeat split; vm_compute; reflexivity.
Qed.

(** C3: for a key [k] in [0, 14], once [SetKeyHandler k fn] has succeeded
    and [fn] answers false when it is run, dispatching a press for [k] runs
    [fn] once (one more entry [k] in the invocation log, the caller's state
    advanced by one run of [fn]) and leaves no handler for [k]; a further
    dispatch for [k] changes nothing, so nothing is invoked. *)
Theorem one_shot_handler {W} (s : State W) (fn : KeyPressFn W) (k : Z) :
  0 <= k <= 14 ->
  (fn k (world s)).1 = false ->
  exists s1,
    SetKeyHandler k fn s = (s1, None) /\
    handlers s1 !! k = Some fn /\
    calls (dispatchKey k s1) = calls s ++ [k] /\
    world (dispatchKey k s1) = (fn k (world s)).2 /\
    handlers (dispatchKey k s1) !! k = None /\
    dispatchKey k (dispatchKey k s1) = dispatchKey k s1.
Proof.
  intros Hk Hfalse. eexists. split.
  { unfold SetKeyHandler. rewrite key_guard_accepts by done. reflexivity. }
  set (s1 := with_handlers _ s).
  assert (Hin : handlers s1 !! k = Some fn) by apply lookup_insert_eq.
  assert (Hgone : handlers (dispatchKey k s1) !! k = None).
  { rewrite (dispatchKey_present _ _ _ Hin). simpl. rewrite Hfalse.
    apply lookup_delete_eq. }
  split; [ exact Hin | ].
  rewrite (dispatchKey_absent _ _ Hgone).
  rewrite (dispatchKey_present _ _ _ Hin) in *. simpl in *. done.
Qed.

Lemma one_shot_handler_witness :
  0 <= 4 <= 14 /\ (Sample.once 4 (world Sample.start)).1 = false /\
  exists s1, SetKeyHandler 4 Sample.once Sample.start = (s1, None) /\
             calls (dispatchKey 4 s1) = [4] /\
             handlers (dispatchKey 4 s1) !! 4 = None.
Proof.
  assert (Hk : 0 <= 4 <= 14) by lia.
  assert (Hf : (Sample.once 4 (world Sample.start)).1 = false) by reflexivity.
  destruct (one_shot_handler Sample.start Sample.once 4 Hk Hf)
    as (s1 & H1 & _ & H3 & _ & H5 & _).
  split; [ exact Hk | split; [ exact Hf | ] ].
  exists s1. split; [ exact H1 | split; [ exact H3 | exact H5 ] ].
Defined.

(** ** The event loop *)

Section Events.

Context {W : Type}.
Implicit Types (s st : State W) (report l : list Z) (id m : Z).

Lemma zip_seqZ_cons m x l :
  zip (seqZ m (Z.of_nat (length (x :: l)))) (x :: l) =
  (m, x) :: zip (seqZ (Z.succ m) (Z.of_nat (length l))) l.
Proof.
  rewrite seqZ_cons by (simpl; lia). simpl. do 3 f_equal. lia.
Qed.

(** The loop over all positions does the same as a loop over the pressed
    positions alone. *)
Lemma foldl_pressed_from (F : State W -> Z -> State W) l : forall m st,
  foldl (fun st '(id, state) => if state =? 1 then F st id else st) st
        (zip (seqZ m (Z.of_nat (length l))) l) =
  foldl F st
        (filter (fun p => p.2 = 1) (zip (seqZ m (Z.of_nat (length l))) l)).*1.
Proof.
  induction l as [ | x l IH ]; intros m st; [ reflexivity | ].
  rewrite zip_seqZ_cons. rewrite filter_cons. cbn [foldl].
  destruct (decide ((m, x).2 = 1)) as [E | E]; simpl in E.
  - subst x. simpl. apply IH.
  - destruct (Z.eqb_spec x 1); [ done | ]. apply IH.
Qed.

Lemma pressed_from_spec l : forall m id,
  id ∈ (filter (fun p => p.2 = 1)
               (zip (seqZ m (Z.of_nat (length l))) l)).*1 <->
  m <= id /\ l !! Z.to_nat (id - m) = Some 1.
Proof.
  induction l as [ | x l IH ]; intros m id.
  - simpl. split; [ by intros ?%elem_of_nil | by intros [_ ?] ].
  - rewrite zip_seqZ_cons, filter_cons.
    assert (Hshift : forall i, m < i ->
              (x :: l) !! Z.to_nat (i - m) = l !! Z.to_nat (i - Z.succ m)).
    { intros i Hi. replace (Z.to_nat (i - m)) with (S (Z.to_nat (i - Z.succ m)))
        by lia. reflexivity. }
    destruct (decide ((m, x).2 = 1)) as [E | E]; simpl in E.
    + subst x. rewrite fmap_cons, elem_of_cons, IH. simpl. split.
      * intros [-> | [Hm Hl]].
        -- split; [ lia | ]. by rewrite Z.sub_diag.
        -- split; [ lia | ]. rewrite Hshift by lia. done.
      * intros [Hm Hl]. destruct (decide (id = m)) as [ | Hne ]; [ by left | ].
        right. split; [ lia | ]. rewrite <- Hshift by lia. done.
    + rewrite IH. split.
      * intros [Hm Hl]. split; [ lia | ]. rewrite Hshift by lia. done.
      * intros [Hm Hl]. destruct (decide (id = m)) as [ -> | Hne ].
        -- rewrite Z.sub_diag in Hl. simpl in Hl. congruence.
        -- split; [ lia | ]. rewrite <- Hshift by lia. done.
Qed.

Lemma pressed_from_sorted l : forall m,
  StronglySorted Z.lt
    (filter (fun p => p.2 = 1) (zip (seqZ m (Z.of_nat (length l))) l)).*1.
Proof.
  induction l as [ | x l IH ]; intros m; [ constructor | ].
  rewrite zip_seqZ_cons, filter_cons.
  destruct (decide ((m, x).2 = 1)) as [E | E]; [ | apply IH ].
  rewrite fmap_cons. constructor; [ apply IH | ].
  apply Forall_forall. intros id Hid. apply pressed_from_spec in Hid. simpl. lia.
Qed.

(** [pressed report] lists, in strictly ascending order, exactly the native
    ids [id >= 0] whose state byte [report[1 + id]] is 1. *)
Lemma pressed_spec report id :
  id ∈ pressed report <->
  0 <= id /\ report !! S (Z.to_nat id) = Some 1.
Proof.
  unfold pressed, range. rewrite pressed_from_spec.
  rewrite Z.sub_0_r, lookup_drop. reflexivity.
Qed.

Lemma pressed_sorted report : StronglySorted Z.lt (pressed report).
Proof. apply pressed_from_sorted. Qed.

Lemma pressed_bound report id :
  length report = 16%nat -> id ∈ pressed report -> 0 <= id <= 14.
Proof.
  intros Hlen [H0 Hl]%pressed_spec. apply lookup_lt_Some in Hl. lia.
Qed.

Lemma ReadTimeout_length b timeout d d' report bytes err :
  hid.ReadTimeout b timeout d = (d', (report, bytes, err)) ->
  length report = length b.
Proof.
  unfold hid.ReadTimeout. intros H.
  destruct (hid.read_script d) as [ | [data | e] rest ]; simplify_eq; try done.
  rewrite length_app, length_take, length_drop. lia.
Qed.

(** What [ProcessEvents] does once the read has delivered a key-state
    report: the presses are handled one by one in the order of [pressed]. *)
Lemma processEvents_key_report toKey timeout s d report bytes :
  hid.ReadTimeout (replicate 16 0) timeout (device s) = (d, (report, bytes, None)) ->
  0 < bytes ->
  report !! 0%nat = Some 1 ->
  processEvents toKey timeout s =
  (foldl (press toKey) (with_device d s) (pressed report), None).
Proof.
  intros Hread Hpos Hid. unfold processEvents. rewrite Hread.
  destruct (Z.ltb_spec 0 bytes); [ | lia ].
  rewrite Hid. simpl. f_equal.
  unfold pressed, range, press. apply foldl_pressed_from.
Qed.

Lemma processEvents_nothing_read toKey timeout s d report :
  hid.ReadTimeout (replicate 16 0) timeout (device s) = (d, (report, 0, None)) ->
  processEvents toKey timeout s = (with_device d s, None).
Proof. intros Hread. unfold processEvents. by rewrite Hread. Qed.

Lemma processEvents_other_report toKey timeout s d report bytes reportId :
  hid.ReadTimeout (replicate 16 0) timeout (device s) = (d, (report, bytes, None)) ->
  0 < bytes ->
  report !! 0%nat = Some reportId ->
  reportId <> 1 ->
  processEvents toKey timeout s =
  (mkState (env s) d (handlers s) (world s) (calls s)
           (stdout s ++ [unexpected_report reportId]), None).
Proof.
  intros Hread Hpos Hid Hne. unfold processEvents. rewrite Hread.
  destruct (Z.ltb_spec 0 bytes); [ | lia ].
  rewrite Hid. simpl. destruct (Z.eqb_spec reportId 1); done.
Qed.

(** The invocations of one press: the global slot first, then the key. *)
Lemma press_calls toKey st id :
  toKey (byte_of id) <> 255 ->
  calls (press toKey st id) =
  calls st
    ++ match handlers st !! 255 with Some _ => [255] | None => [] end
    ++ match handlers st !! toKey (byte_of id) with
       | Some _ => [toKey (byte_of id)]
       | None => []
       end.
Proof.
  intros Hne. unfold press. rewrite !dispatchKey_calls.
  rewrite dispatchKey_other by done. by rewrite app_assoc.
Qed.

Lemma press_segment toKey st id :
  toKey (byte_of id) <> 255 ->
  exists seg, calls (press toKey st id) = calls st ++ seg /\
              seg `sublist_of` [255; toKey (byte_of id)].
Proof.
  intros Hne. eexists. split; [ by apply press_calls | ].
  destruct (handlers st !! 255), (handlers st !! toKey (byte_of id)); simpl;
    repeat first [ apply sublist_nil | apply sublist_skip | apply sublist_cons ].
Qed.

Lemma foldl_press_segments toKey ids : forall st,
  Forall (fun id => toKey (byte_of id) <> 255) ids ->
  exists segs,
    calls (foldl (press toKey) st ids) = calls st ++ concat segs /\
    Forall2 (fun id seg => seg `sublist_of` [255; toKey (byte_of id)]) ids segs.
Proof.
  induction ids as [ | id ids IH ]; intros st Hall.
  - exists []. simpl. by rewrite app_nil_r.
  - apply Forall_cons in Hall as [Hid Hall].
    destruct (press_segment toKey st id Hid) as (seg & Hseg & Hsub).
    destruct (IH (press toKey st id) Hall) as (segs & Hsegs & Hsubs).
    exists (seg :: segs). split; [ | by constructor ].
    simpl. rewrite Hsegs, Hseg. by rewrite app_assoc.
Qed.

End Events.

Lemma byte_of_small (id : Z) : 0 <= id <= 14 -> byte_of id = id.
Proof. intros H. unfold byte_of. apply Z.mod_small. lia. Qed.

Lemma invertKeyOrId_key (id : Z) :
  0 <= id <= 14 -> Rev2.invertKeyOrId (byte_of id) <> 255.
Proof.
  intros H. rewrite byte_of_small by done.
  apply invertKeyOrId_never_255. unfold is_byte. lia.
Qed.

Lemma internalIdToKey_key (id : Z) :
  0 <= id <= 14 -> Rev1.internalIdToKey (byte_of id) <> 255.
Proof.
  intros H. rewrite byte_of_small by done. key_cases H; vm_compute; discriminate.
Qed.

(** ** Claims on [ProcessEvents] *)

(** The order of the invocations of one key-state report, for any
    translator that maps the ids of the report to keys other than 255. *)
Lemma processEvents_order {W} (toKey : Z -> Z) (s : State W) timeout d report bytes :
  (forall id, 0 <= id <= 14 -> toKey (byte_of id) <> 255) ->
  hid.ReadTimeout (replicate 16 0) timeout (device s)
    = (d, (report, bytes, None)) ->
  0 < bytes ->
  report !! 0%nat = Some 1 ->
  exists segs,
    calls (processEvents toKey timeout s).1 = calls s ++ concat segs /\
    Forall2 (fun id seg => seg `sublist_of` [255; toKey (byte_of id)])
            (pressed report) segs.
Proof.
  intros HtoKey Hread Hpos Hid.
  rewrite (processEvents_key_report _ _ _ _ _ _ Hread Hpos Hid). simpl.
  apply (foldl_press_segments toKey (pressed report) (with_device d s)).
  apply Forall_forall. intros id Hin. apply HtoKey.
  apply (pressed_bound report); [ | done ].
  rewrite (ReadTimeout_length _ _ _ _ _ _ _ Hread). by rewrite length_replicate.
Qed.

Lemma invertKeyOrId_mirror (id : Z) :
  0 <= id <= 14 ->
  Rev2.invertKeyOrId (byte_of id) = 5 * (id / 5) + (4 - id mod 5) /\
  0 <= 5 * (id / 5) + (4 - id mod 5) <= 14.
Proof.
  intros H. rewrite byte_of_small by done.
  key_cases H; vm_compute; (split; [ reflexivity | split; discriminate ]).
Qed.

Lemma foldl_agree {A B} (f g : A -> B -> A) (l : list B) : forall a,
  Forall (fun x => forall a', f a' x = g a' x) l -> foldl f a l = foldl g a l.
Proof.
  induction l as [ | x l IH ]; intros a Hall; [ done | ].
  apply Forall_cons in Hall as [Hx Hall]. simpl. rewrite Hx. by apply IH.
Qed.

Lemma Forall2_impl_in {A B} (P Q : A -> B -> Prop) (l : list A) (k : list B) :
  Forall2 P l k ->
  Forall (fun x => forall y, P x y -> Q x y) l ->
  Forall2 Q l k.
Proof.
  induction 1 as [ | x y l k Hxy _ IH ]; intros Hall; [ constructor | ].
  apply Forall_cons in Hall as [Hx Hall]. constructor; [ by apply Hx | by apply IH ].
Qed.

(** C4: when the read delivers a key-state report, [ProcessEvents] handles
    the pressed native ids in strictly ascending order ([pressed] holds
    exactly the ids in [0, 14] whose state byte is 1).  The key of a pressed
    id is its mirror image in its row of five, [5 * (id / 5) + (4 - id mod
    5)], and each press dispatches the global slot 255 first and that key
    second.  A dispatch runs the handler found in the slot on the caller's
    state, with the slot's key as argument, and logs it; an empty slot is
    passed over.  So for a press with a global handler [g] and a key
    handler [f], the caller's state goes through [g 255] and then through
    [f key], and the invocations of the whole report are, press after
    press, sublists of [255; key]. *)
Theorem dispatch_order {W} (s : State W) timeout d report bytes :
  hid.ReadTimeout (replicate 16 0) timeout (device s)
    = (d, (report, bytes, None)) ->
  0 < bytes ->
  report !! 0%nat = Some 1 ->
  let key := fun id => 5 * (id / 5) + (4 - id mod 5) in
  StronglySorted Z.lt (pressed report) /\
  (forall id, id ∈ pressed report <->
              0 <= id <= 14 /\ report !! S (Z.to_nat id) = Some 1) /\
  (forall id, id ∈ pressed report ->
     Rev2.invertKeyOrId (byte_of id) = key id /\ 0 <= key id <= 14) /\
  Rev2.ProcessEvents timeout s =
    (foldl (fun st id => dispatchKey (key id) (dispatchKey 255 st))
           (with_device d s) (pressed report), None) /\
  (forall (st : State W) k (fn : KeyPressFn W),
     handlers st !! k = Some fn ->
     world (dispatchKey k st) = (fn k (world st)).2 /\
     calls (dispatchKey k st) = calls st ++ [k]) /\
  (forall (st : State W) k,
     handlers st !! k = None -> dispatchKey k st = st) /\
  (forall (st : State W) id (g f : KeyPressFn W),
     id ∈ pressed report ->
     handlers st !! 255 = Some g ->
     handlers (dispatchKey 255 st) !! key id = Some f ->
     world (dispatchKey (key id) (dispatchKey 255 st))
       = (f (key id) (g 255 (world st)).2).2 /\
     calls (dispatchKey (key id) (dispatchKey 255 st))
       = calls st ++ [255; key id]) /\
  (forall (st : State W) id, id ∈ pressed report ->
     calls (dispatchKey (key id) (dispatchKey 255 st)) =
     calls st
       ++ match handlers st !! 255 with Some _ => [255] | None => [] end
       ++ match handlers (dispatchKey 255 st) !! key id with
          | Some _ => [key id]
          | None => []
          end) /\
  exists segs,
    calls (Rev2.ProcessEvents timeout s).1 = calls s ++ concat segs /\
    Forall2 (fun id seg => seg `sublist_of` [255; key id])
            (pressed report) segs.
Proof.
  intros Hread Hpos Hid key.
  assert (Hlen : length report = 16%nat).
  { rewrite (ReadTimeout_length _ _ _ _ _ _ _ Hread). by rewrite length_replicate. }
  assert (Hkey : forall id, id ∈ pressed report ->
            Rev2.invertKeyOrId (byte_of id) = key id /\ 0 <= key id <= 14).
  { intros id Hin. apply invertKeyOrId_mirror. by apply (pressed_bound report). }
  split; [ apply pressed_sorted | ].
  split.
  { intros id. rewrite pressed_spec. split.
    - intros [H0 Hl]. split; [ | done ]. apply lookup_lt_Some in Hl. lia.
    - intros [H0 Hl]. split; [ lia | done ]. }
  split; [ exact Hkey | ].
  split.
  { unfold Rev2.ProcessEvents.
    rewrite (processEvents_key_report _ _ _ _ _ _ Hread Hpos Hid). f_equal.
    apply foldl_agree. apply Forall_forall. intros id Hin st.
    unfold press. by rewrite (proj1 (Hkey id Hin)). }
  split.
  { intros st k fn Hfn. by rewrite (dispatchKey_present _ _ _ Hfn). }
  split; [ intros st k Hnone; by apply dispatchKey_absent | ].
  split.
  { intros st id g f Hin Hg Hf.
    rewrite (dispatchKey_present _ _ _ Hf). cbn [world calls].
    rewrite (dispatchKey_present _ _ _ Hg). cbn [world calls].
    split; [ done | by rewrite <- app_assoc ]. }
  split.
  { intros st id Hin. rewrite !dispatchKey_calls. by rewrite app_assoc. }
  destruct (processEvents_order Rev2.invertKeyOrId s timeout d report bytes)
    as (segs & Hcalls & Hsegs); auto using invertKeyOrId_key.
  exists segs. split; [ exact Hcalls | ].
  apply (Forall2_impl_in _ _ _ _ Hsegs). apply Forall_forall.
  intros id Hin seg Hsub. by rewrite <- (proj1 (Hkey id Hin)).
Qed.

Lemma dispatch_order_witness :
  hid.ReadTimeout (replicate 16 0) 0 (device Sample.armed)
    = (hid.mkDevice [] [] [hid.ReadData [3; 1]; hid.ReadData []],
       ([1; 1; 0; 0; 1; 0; 0; 0; 0; 0; 0; 0; 0; 0; 0; 0], 5, None)) /\
  0 < 5 /\
  [1; 1; 0; 0; 1; 0; 0; 0; 0; 0; 0; 0; 0; 0; 0; 0] !! 0%nat = Some 1 /\
  pressed [1; 1; 0; 0; 1; 0; 0; 0; 0; 0; 0; 0; 0; 0; 0; 0] = [0; 3] /\
  calls (Rev2.ProcessEvents 0 Sample.armed).1 = [255; 4; 255] /\
  world (Rev2.ProcessEvents 0 Sample.armed).1 = 21%nat /\
  handlers (Rev2.ProcessEvents 0 Sample.armed).1 !! 4 = None.
Proof.
  assert (Hread : hid.ReadTimeout (replicate 16 0) 0 (device Sample.armed)
    = (hid.mkDevice [] [] [hid.ReadData [3; 1]; hid.ReadData []],
       ([1; 1; 0; 0; 1; 0; 0; 0; 0; 0; 0; 0; 0; 0; 0; 0], 5, None)))
    by reflexivity.
  assert (Hpos : 0 < 5) by lia.
  assert (Hid : [1; 1; 0; 0; 1; 0; 0; 0; 0; 0; 0; 0; 0; 0; 0; 0] !! 0%nat
                = Some 1) by reflexivity.
  destruct (dispatch_order Sample.armed 0 _ _ _ Hread Hpos Hid)
    as (_ & _ & _ & E & _).
  split; [ exact Hread | split; [ exact Hpos | split; [ exact Hid | ] ] ].
  split; [ vm_compute; reflexivity | ].
  rewrite E. repeat split; vm_compute; reflexivity.
Defined.

(** The same order holds in the first revision, with [internalIdToKey]. *)
Lemma Rev1_press_order {W} (s : State W) timeout d report bytes :
  hid.ReadTimeout (replicate 16 0) timeout (device s)
    = (d, (report, bytes, None)) ->
  0 < bytes ->
  report !! 0%nat = Some 1 ->
  Rev1.ProcessEvents timeout s =
    (foldl (press Rev1.internalIdToKey) (with_device d s) (pressed report), None) /\
  exists segs,
    calls (Rev1.ProcessEvents timeout s).1 = calls s ++ concat segs /\
    Forall2 (fun id seg =>
               seg `sublist_of` [255; Rev1.internalIdToKey (byte_of id)])
            (pressed report) segs.
Proof.
  intros Hread Hpos Hid. split.
  - exact (processEvents_key_report _ _ _ _ _ _ Hread Hpos Hid).
  - apply (processEvents_order Rev1.internalIdToKey s timeout d report bytes);
      auto using internalIdToKey_key.
Qed.


(** A report with native keys 0 and 3 pressed, on a deck with a global
    handler and a one-shot handler on logical key 4: the global handler runs
    for each press, the handler of key 4 between them, and then it is gone. *)
Example armed_report :
  calls (Rev2.ProcessEvents 0 Sample.armed).1 = [255; 4; 255] /\
  world (Rev2.ProcessEvents 0 Sample.armed).1 = 21%nat /\
  handlers (Rev2.ProcessEvents 0 Sample.armed).1 !! 4 = None /\
  (Rev2.ProcessEvents 0 Sample.armed).2 = None.
Proof. repeat split; vm_compute; reflexivity. Qed.

(** C7: when the read returns without error and yields zero bytes,
    [ProcessEvents] returns [nil] and leaves registry, caller state,
    invocation log and output as they were; when it yields a report whose
    byte 0 is not 1, the only change is one diagnostic line, and the result
    is [nil] as well.  Both revisions behave so. *)
Theorem ignored_reports {W} (s : State W) timeout d report bytes :
  hid.ReadTimeout (replicate 16 0) timeout (device s)
    = (d, (report, bytes, None)) ->
  bytes = 0 \/ (0 < bytes /\ report !! 0%nat <> Some 1) ->
  let diagnostic :=
    if bytes =? 0 then []
    else [unexpected_report (default 0 (report !! 0%nat))] in
  Rev2.ProcessEvents timeout s =
    (mkState (env s) d (handlers s) (world s) (calls s)
             (stdout s ++ diagnostic), None) /\
  Rev1.ProcessEvents timeout s = Rev2.ProcessEvents timeout s.
Proof.
  intros Hread Hcase diagnostic.
  assert (Hlen : length report = 16%nat).
  { rewrite (ReadTimeout_length _ _ _ _ _ _ _ Hread). by rewrite length_replicate. }
  unfold Rev1.ProcessEvents, Rev2.ProcessEvents.
  destruct Hcase as [-> | [Hpos Hne]].
  - rewrite !(processEvents_nothing_read _ _ _ _ _ Hread).
    subst diagnostic. simpl. rewrite app_nil_r. done.
  - destruct report as [ | reportId report ]; [ done | ].
    assert (Hid : reportId <> 1) by (intros ->; by apply Hne).
    rewrite !(processEvents_other_report _ _ _ _ _ _ reportId Hread Hpos eq_refl Hid).
    subst diagnostic. destruct (Z.eqb_spec bytes 0); [ lia | done ].
Qed.

Lemma ignored_reports_witness :
  (Rev2.ProcessEvents 0 Sample.start).2 = None /\
  calls (Rev2.ProcessEvents 0 Sample.start).1 = [] /\
  stdout (Rev2.ProcessEvents 0 Sample.armed).1 = [] /\
  let s := (Rev2.ProcessEvents 0 Sample.armed).1 in
  (Rev2.ProcessEvents 0 s).2 = None /\
  calls (Rev2.ProcessEvents 0 s).1 = calls s /\
  stdout (Rev2.ProcessEvents 0 s).1 = [unexpected_report 3].
Proof.
  assert (H0 : hid.ReadTimeout (replicate 16 0) 0 (device Sample.start)
               = (Sample.quiet, (replicate 16 0, 0, None))) by reflexivity.
  destruct (ignored_reports Sample.start 0 _ _ _ H0 (or_introl eq_refl))
    as [E0 _].
  set (s := (Rev2.ProcessEvents 0 Sample.armed).1).
  assert (H1 : hid.ReadTimeout (replicate 16 0) 0 (device s)
               = (hid.mkDevice [] [] [hid.ReadData []],
                  ([3; 1; 0; 0; 0; 0; 0; 0; 0; 0; 0; 0; 0; 0; 0; 0], 2, None)))
    by (vm_compute; reflexivity).
  assert (C1 : 0 < 2 /\
          [3; 1; 0; 0; 0; 0; 0; 0; 0; 0; 0; 0; 0; 0; 0; 0] !! 0%nat <> Some 1)
    by (split; [ lia | discriminate ]).
  destruct (ignored_reports s 0 _ _ _ H1 (or_intror C1)) as [E1 _].
  rewrite E0. split; [ reflexivity | ]. split; [ reflexivity | ].
  split; [ vm_compute; reflexivity | ].
  cbv zeta. rewrite E1. split; [ reflexivity | ]. split; [ reflexivity | ].
  vm_compute. reflexivity.
Defined.



(** ** Image pages *)

Section Pages.

Context {W : Type}.
Implicit Types (s : State W) (d : hid.Device) (b header payload : list Z).

Lemma Write_written b d : hid.written (hid.Write b d).1 = hid.written d ++ [b].
Proof. unfold hid.Write. by destruct (hid.write_script d). Qed.

Lemma Write_fails b d e rest :
  hid.write_script d = Some e :: rest ->
  hid.Write b d =
    (hid.mkDevice (hid.written d ++ [b]) rest (hid.read_script d), Some e).
Proof. intros H. unfold hid.Write. by rewrite H. Qed.

Lemma Write_accepted b d :
  (forall e, head (hid.write_script d) <> Some (Some e)) ->
  hid.Write b d =
    (hid.mkDevice (hid.written d ++ [b]) (tail (hid.write_script d))
                  (hid.read_script d), None).
Proof.
  intros H. unfold hid.Write.
  destruct (hid.write_script d) as [ | [e | ] rest ]; try done.
  by destruct (H e).
Qed.

Lemma writePage_fails header payload d e rest :
  hid.write_script d = Some e :: rest ->
  writePage header payload d =
    (hid.mkDevice (hid.written d ++ [header ++ payload]) rest (hid.read_script d),
     Some (WithStackOf e)).
Proof. intros H. unfold writePage. simpl. by rewrite (Write_fails _ _ _ _ H). Qed.

Lemma writePage_accepted header payload d :
  (forall e, head (hid.write_script d) <> Some (Some e)) ->
  writePage header payload d =
    (hid.mkDevice (hid.written d ++ [header ++ payload])
                  (tail (hid.write_script d)) (hid.read_script d), None).
Proof. intros H. unfold writePage. simpl. by rewrite (Write_accepted _ _ H). Qed.

Lemma writePage_written header payload d :
  hid.written (writePage header payload d).1 = hid.written d ++ [header ++ payload].
Proof.
  unfold writePage. simpl. pose proof (Write_written (header ++ payload) d) as H.
  by destruct (hid.Write (header ++ payload) d).
Qed.

Lemma loadImage_blank (e : Env) : loadImage e "" = (None, None).
Proof. reflexivity. Qed.

Lemma blank_page1 (e : Env) :
  slice_upto (imageBytesOf e None) imageBytesOnPage1
  = Some (replicate (Z.to_nat 7749) 0).
Proof. vm_compute. reflexivity. Qed.

Lemma blank_page2 (e : Env) :
  slice_from (imageBytesOf e None) imageBytesOnPage1
  = Some (replicate (Z.to_nat 7803) 0).
Proof. vm_compute. reflexivity. Qed.

(** A failing first write ends the call after that one write. *)
Lemma sendKeyImage_page1_fails id filename s img payload1 e rest :
  loadImage (env s) filename = (img, None) ->
  slice_upto (imageBytesOf (env s) img) imageBytesOnPage1 = Some payload1 ->
  hid.write_script (device s) = Some e :: rest ->
  sendKeyImage id filename s =
    (with_device
       (hid.mkDevice (hid.written (device s) ++ [header1 id ++ payload1]) rest
                     (hid.read_script (device s))) s,
     Returns (Some (WrapfOf (WithStackOf e) "failed to write page 1"))).
Proof.
  intros Hload Hs1 Hscript. unfold sendKeyImage.
  rewrite Hload, Hs1, (writePage_fails _ _ _ _ _ Hscript). reflexivity.
Qed.

(** A failing second write ends the call after the two writes. *)
Lemma sendKeyImage_page2_fails id filename s img payload1 payload2 e rest :
  loadImage (env s) filename = (img, None) ->
  slice_upto (imageBytesOf (env s) img) imageBytesOnPage1 = Some payload1 ->
  slice_from (imageBytesOf (env s) img) imageBytesOnPage1 = Some payload2 ->
  hid.write_script (device s) = None :: Some e :: rest ->
  sendKeyImage id filename s =
    (with_device
       (hid.mkDevice (hid.written (device s)
                        ++ [header1 id ++ payload1; header2 id ++ payload2])
                     rest (hid.read_script (device s))) s,
     Returns (Some (WrapfOf (WithStackOf e) "failed to write page 2"))).
Proof.
  intros Hload Hs1 Hs2 Hscript. unfold sendKeyImage.
  rewrite Hload, Hs1, Hs2.
  rewrite writePage_accepted by (rewrite Hscript; simpl; congruence).
  rewrite Hscript. cbn [tail].
  erewrite writePage_fails by reflexivity.
  cbn [hid.written hid.read_script]. rewrite <- app_assoc. reflexivity.
Qed.

(** When the first write is accepted, exactly the two pages are written. *)
Lemma sendKeyImage_two_writes id filename s img payload1 payload2 :
  loadImage (env s) filename = (img, None) ->
  slice_upto (imageBytesOf (env s) img) imageBytesOnPage1 = Some payload1 ->
  slice_from (imageBytesOf (env s) img) imageBytesOnPage1 = Some payload2 ->
  (forall e, head (hid.write_script (device s)) <> Some (Some e)) ->
  hid.written (device (sendKeyImage id filename s).1) =
    hid.written (device s) ++ [header1 id ++ payload1; header2 id ++ payload2].
Proof.
  intros Hload Hs1 Hs2 Hok. unfold sendKeyImage.
  rewrite Hload, Hs1, Hs2, (writePage_accepted _ _ _ Hok).
  match goal with
  | |- context [ writePage ?h ?p ?d ] =>
      pose proof (writePage_written h p d) as Hw;
      destruct (writePage h p d) as [d2 [err | ]]
  end; simpl in *; rewrite Hw; by rewrite <- app_assoc.
Qed.

Lemma Rev1_SetKeyImage_valid key filename s :
  0 <= key <= 14 ->
  Rev1.SetKeyImage key filename s = sendKeyImage (Rev1.keyToInternalId key) filename s.
Proof.
  intros Hk. unfold Rev1.SetKeyImage.
  destruct (Z.eqb_spec (Rev1.keyToInternalId key) 255) as [E | ]; [ | done ].
  exfalso. revert E. key_cases Hk; vm_compute; discriminate.
Qed.

End Pages.

(** C8: once the image is loaded and the first slice taken, a failing
    write of page 1 makes [SetKeyImage] return that error wrapped as
    "failed to write page 1" after this single write: page 2 is not written
    and the rest of the device's script is untouched; a failing write of
    page 2, after an accepted page 1, makes it return the error wrapped as
    "failed to write page 2" after exactly the two writes. *)
Theorem page_write_failures {W} (s : State W) key filename img payload1 :
  loadImage (env s) filename = (img, None) ->
  slice_upto (imageBytesOf (env s) img) imageBytesOnPage1 = Some payload1 ->
  let id := byte_of (Rev2.invertKeyOrId key + 1) in
  (forall e rest,
     hid.write_script (device s) = Some e :: rest ->
     Rev2.SetKeyImage key filename s =
       (with_device
          (hid.mkDevice (hid.written (device s) ++ [header1 id ++ payload1])
                        rest (hid.read_script (device s))) s,
        Returns (Some (WrapfOf (WithStackOf e) "failed to write page 1")))) /\
  (forall e rest payload2,
     slice_from (imageBytesOf (env s) img) imageBytesOnPage1 = Some payload2 ->
     hid.write_script (device s) = None :: Some e :: rest ->
     Rev2.SetKeyImage key filename s =
       (with_device
          (hid.mkDevice (hid.written (device s)
                           ++ [header1 id ++ payload1; header2 id ++ payload2])
                        rest (hid.read_script (device s))) s,
        Returns (Some (WrapfOf (WithStackOf e) "failed to write page 2")))).
Proof.
  intros Hload Hs1 id. split.
  - intros e rest Hscript. by apply sendKeyImage_page1_fails with (img := img).
  - intros e rest payload2 Hs2 Hscript.
    by apply sendKeyImage_page2_fails with (img := img).
Qed.

Lemma page_write_failures_witness :
  (Rev2.SetKeyImage 0 "" (with_device Sample.broken1 Sample.start)).2 =
    Returns (Some (WrapfOf (WithStackOf (ErrExternal "hid: write failed"))
                           "failed to write page 1")) /\
  length (hid.written
            (device (Rev2.SetKeyImage 0 ""
                       (with_device Sample.broken1 Sample.start)).1)) = 1%nat /\
  (Rev2.SetKeyImage 0 "" (with_device Sample.broken2 Sample.start)).2 =
    Returns (Some (WrapfOf (WithStackOf (ErrExternal "hid: write failed"))
                           "failed to write page 2")) /\
  length (hid.written
            (device (Rev2.SetKeyImage 0 ""
                       (with_device Sample.broken2 Sample.start)).1)) = 2%nat.
Proof.
  destruct (page_write_failures (with_device Sample.broken1 Sample.start) 0 ""
              None _ (loadImage_blank _) (blank_page1 _)) as [H1 _].
  destruct (page_write_failures (with_device Sample.broken2 Sample.start) 0 ""
              None _ (loadImage_blank _) (blank_page1 _)) as [_ H2].
  rewrite (H1 _ _ eq_refl), (H2 _ _ _ (blank_page2 _) eq_refl).
  repeat split.
Defined.

(** The first revision behaves the same for a valid key. *)
Lemma Rev1_write_failures {W} (s : State W) key filename img payload1 :
  0 <= key <= 14 ->
  loadImage (env s) filename = (img, None) ->
  slice_upto (imageBytesOf (env s) img) imageBytesOnPage1 = Some payload1 ->
  let id := Rev1.keyToInternalId key in
  (forall e rest,
     hid.write_script (device s) = Some e :: rest ->
     Rev1.SetKeyImage key filename s =
       (with_device
          (hid.mkDevice (hid.written (device s) ++ [header1 id ++ payload1])
                        rest (hid.read_script (device s))) s,
        Returns (Some (WrapfOf (WithStackOf e) "failed to write page 1")))) /\
  (forall e rest payload2,
     slice_from (imageBytesOf (env s) img) imageBytesOnPage1 = Some payload2 ->
     hid.write_script (device s) = None :: Some e :: rest ->
     Rev1.SetKeyImage key filename s =
       (with_device
          (hid.mkDevice (hid.written (device s)
                           ++ [header1 id ++ payload1; header2 id ++ payload2])
                        rest (hid.read_script (device s))) s,
        Returns (Some (WrapfOf (WithStackOf e) "failed to write page 2")))).
Proof.
  intros Hk Hload Hs1 id. rewrite Rev1_SetKeyImage_valid by done. split.
  - intros e rest Hscript. by apply sendKeyImage_page1_fails with (img := img).
  - intros e rest payload2 Hs2 Hscript.
    by apply sendKeyImage_page2_fails with (img := img).
Qed.

(** C6, as the code has it: on a device that accepts the first write,
    [SetKeyImage(0, "")] writes exactly two buffers.  The first is the
    70-byte header followed by the first [2583 * 3 = 7749] bytes of the
    blank pixel buffer, the second the 16-byte header followed by the other
    7803 bytes.  Byte 5 of each header is the key id: in the second
    revision the translated key plus one, [invertKeyOrId 0 + 1 = 5]; in the
    first revision the translated key itself, [keyToInternalId 0 = 4]. *)
Theorem blank_image_pages {W} (s : State W) :
  (forall e, head (hid.write_script (device s)) <> Some (Some e)) ->
  let buffer := elems (imageBytesOf (env s) None) in
  hid.written (device (Rev2.SetKeyImage 0 "" s).1) =
    hid.written (device s)
      ++ [header1 5 ++ take imageBytesOnPage1 buffer;
          header2 5 ++ drop imageBytesOnPage1 buffer] /\
  hid.written (device (Rev1.SetKeyImage 0 "" s).1) =
    hid.written (device s)
      ++ [header1 4 ++ take imageBytesOnPage1 buffer;
          header2 4 ++ drop imageBytesOnPage1 buffer] /\
  Z.of_nat (length (take imageBytesOnPage1 buffer)) = 7749 /\
  Z.of_nat (length (drop imageBytesOnPage1 buffer)) = 7803 /\
  (forall id, length (header1 id) = 70%nat /\ length (header2 id) = 16%nat /\
              header1 id !! 5%nat = Some id /\ header2 id !! 5%nat = Some id) /\
  byte_of (Rev2.invertKeyOrId 0 + 1) = 5 /\
  Rev2.invertKeyOrId 0 = 4 /\
  Rev1.keyToInternalId 0 = 4.
Proof.
  intros Hok buffer.
  assert (Hs1 : slice_upto (imageBytesOf (env s) None) imageBytesOnPage1
                = Some (take imageBytesOnPage1 buffer)).
  { rewrite blank_page1. vm_compute. reflexivity. }
  assert (Hs2 : slice_from (imageBytesOf (env s) None) imageBytesOnPage1
                = Some (drop imageBytesOnPage1 buffer)).
  { rewrite blank_page2. vm_compute. reflexivity. }
  split.
  { exact (sendKeyImage_two_writes 5 "" s None _ _ (loadImage_blank _) Hs1 Hs2 Hok). }
  split.
  { rewrite Rev1_SetKeyImage_valid by lia.
    exact (sendKeyImage_two_writes 4 "" s None _ _ (loadImage_blank _) Hs1 Hs2 Hok). }
  split; [ vm_compute; reflexivity | ].
  split; [ vm_compute; reflexivity | ].
  split; [ intros id; repeat split | ].
  repeat split.
Qed.

Lemma blank_image_pages_witness :
  (forall e, head (hid.write_script (device Sample.start)) <> Some (Some e)) /\
  hid.written (device (Rev2.SetKeyImage 0 "" Sample.start).1) =
    [header1 5 ++ take imageBytesOnPage1 (elems (imageBytesOf Sample.env None));
     header2 5 ++ drop imageBytesOnPage1 (elems (imageBytesOf Sample.env None))].
Proof.
  assert (Hok : forall e,
            head (hid.write_script (device Sample.start)) <> Some (Some e))
    by (intros e; discriminate).
  destruct (blank_image_pages Sample.start Hok) as [H _].
  split; [ exact Hok | exact H ].
Defined.

(** C6 as stated fails on a fresh deck: the first buffer written is 7819
    bytes long, not [74 + 7749], and byte 5 of its header is 5, not the
    translated key [invertKeyOrId 0 = 4]. *)
Lemma blank_image_pages_counterexample :
  ~ (exists h1 payload1 h2 payload2,
       hid.written (device (Rev2.SetKeyImage 0 "" Sample.start).1)
         = [h1 ++ payload1; h2 ++ payload2] /\
       length h1 = 74%nat /\ Z.of_nat (length payload1) = 7749 /\
       length h2 = 16%nat /\ Z.of_nat (length payload2) = 7803 /\
       h1 !! 5%nat = Some (Rev2.invertKeyOrId 0) /\
       h2 !! 5%nat = Some (Rev2.invertKeyOrId 0)).
Proof.
  intros (h1 & payload1 & h2 & payload2 & Hw & L1 & P1 & _).
  assert (Hok : forall e,
            head (hid.write_script (device Sample.start)) <> Some (Some e))
    by (intros e; discriminate).
  pose proof (sendKeyImage_two_writes 5 "" Sample.start None _ _
                (loadImage_blank _) (blank_page1 _) (blank_page2 _) Hok) as Hcode.
  change (sendKeyImage 5 "" Sample.start)
    with (Rev2.SetKeyImage 0 "" Sample.start) in Hcode.
  rewrite Hcode in Hw.
  change (hid.written (device Sample.start)) with (@nil (list Z)) in Hw.
  rewrite app_nil_l in Hw.
  pose proof (f_equal (fun pages => length <$> head pages) Hw) as Hp1.
  cbn [head fmap option_fmap option_map] in Hp1. apply (inj Some) in Hp1.
  rewrite !length_app, length_replicate, L1 in Hp1.
  change (length (header1 5)) with 70%nat in Hp1. lia.
Qed.

(** The other departure from C6 as stated, alone: with the header length
    put right, byte 5 of the headers written is still not the translated
    key. *)
Lemma blank_image_key_byte :
  Forall (fun page => page !! 5%nat = Some 5)
         (hid.written (device (Rev2.SetKeyImage 0 "" Sample.start).1)) /\
  Rev2.invertKeyOrId 0 = 4.
Proof.
  split; [ | reflexivity ].
  assert (Hok : forall e,
            head (hid.write_script (device Sample.start)) <> Some (Some e))
    by (intros e; discriminate).
  rewrite (sendKeyImage_two_writes 5 "" Sample.start None _ _
             (loadImage_blank _) (blank_page1 _) (blank_page2 _) Hok
           : hid.written (device (Rev2.SetKeyImage 0 "" Sample.start).1) = _).
  repeat constructor.
Qed.

(** * Further properties *)

(** ** The translators beyond the 15 keys *)

Lemma invertKeyOrId_below_255 (v : Z) :
  0 <= v < 255 -> 0 <= Rev2.invertKeyOrId v < 255.
Proof.
  intros Hv. destruct (invertKeyOrId_same_row v Hv) as [Hq Hr].
  pose proof (invertKeyOrId_byte v) as Hb. unfold is_byte in Hb.
  pose proof (Z.div_mod (Rev2.invertKeyOrId v) 5 ltac:(lia)) as Hd.
  pose proof (Z.div_mod v 5 ltac:(lia)).
  pose proof (Z.mod_pos_bound v 5 ltac:(lia)).
  rewrite Hq, Hr in Hd. lia.
Qed.

(** The formula is an involution on every byte but 255, not only on the 15
    keys: it mirrors a value inside its group of five.  At 255 the sum
    wraps around, [invertKeyOrId 255 = 3], and the way back is lost. *)
Theorem invertKeyOrId_involutive (v : Z) :
  0 <= v < 255 ->
  Rev2.invertKeyOrId (Rev2.invertKeyOrId v) = v /\
  Rev2.invertKeyOrId v / 5 = v / 5 /\
  Rev2.invertKeyOrId v mod 5 = 4 - v mod 5 /\
  Rev2.invertKeyOrId 255 = 3 /\
  Rev2.invertKeyOrId (Rev2.invertKeyOrId 255) <> 255.
Proof.
  intros Hv. pose proof (invertKeyOrId_below_255 v Hv) as Hu.
  destruct (invertKeyOrId_same_row v Hv) as [Hq Hr].
  split; [ | split; [ exact Hq | split; [ exact Hr | split; [ reflexivity | ] ] ] ].
  - rewrite (invertKeyOrId_no_wrap (Rev2.invertKeyOrId v)) by exact Hu.
    rewrite Hr. rewrite (invertKeyOrId_no_wrap v) by exact Hv. lia.
  - vm_compute. discriminate.
Qed.

Lemma invertKeyOrId_involutive_witness :
  0 <= 203 < 255 /\ Rev2.invertKeyOrId (Rev2.invertKeyOrId 203) = 203.
Proof.
  assert (H : 0 <= 203 < 255) by lia.
  exact (conj H (proj1 (invertKeyOrId_involutive 203 H))).
Defined.

(** The two [switch] tables of the first revision are one and the same
    function on all integers, and it yields 255 exactly for the values
    outside [0, 14]. *)
Theorem tables_coincide (v : Z) :
  Rev1.internalIdToKey v = Rev1.keyToInternalId v /\
  (Rev1.keyToInternalId v = 255 <-> ~ 0 <= v <= 14) /\
  (0 <= v <= 14 -> 0 <= Rev1.keyToInternalId v <= 14).
Proof.
  destruct (decide (0 <= v <= 14)) as [Hin | Hout].
  - split; [ | split ].
    + key_cases Hin; reflexivity.
    + split; [ | done ]. intros E. exfalso. revert E.
      key_cases Hin; vm_compute; discriminate.
    + intros _. key_cases Hin; vm_compute; split; discriminate.
  - assert (Hd : Rev1.internalIdToKey v = 255 /\ Rev1.keyToInternalId v = 255).
    { destruct (decide (14 < v)) as [Hhi | Hlo]; [ by apply table_default | ].
      destruct v as [ | p | p ]; [ lia | lia | done ]. }
    destruct Hd as [E1 E2]. rewrite E1, E2. split; [ done | split; [ done | lia ] ].
Qed.

(** ** The per-key operations and the registry *)

(** Every key outside [0, 14], not only 15 and 255, is refused by
    [SetKeyHandler], [ClearKeyHandler] and the first revision's
    [SetKeyImage] with [WithStack(ErrInvalidKey)], and the deck, the device
    and the logs stay untouched; [SetKeyImage] refuses before it looks at
    the file. *)
Theorem invalid_keys_refused {W} (s : State W) (fn : KeyPressFn W) key filename :
  ~ 0 <= key <= 14 ->
  SetKeyHandler key fn s = (s, Some (WithStackOf ErrInvalidKey)) /\
  ClearKeyHandler key s = (s, Some (WithStackOf ErrInvalidKey)) /\
  Rev1.SetKeyImage key filename s =
    (s, Returns (Some (WithStackOf ErrInvalidKey))).
Proof.
  intros Hk. unfold SetKeyHandler, ClearKeyHandler, Rev1.SetKeyImage.
  rewrite key_guard_rejects by lia.
  assert (E : Rev1.keyToInternalId key = 255).
  { destruct (decide (14 < key)) as [Hhi | Hlo]; [ by apply table_default | ].
    destruct key as [ | p | p ]; [ lia | lia | done ]. }
  rewrite E. done.
Qed.

Lemma invalid_keys_refused_witness :
  ~ 0 <= 200 <= 14 /\
  Rev1.SetKeyImage 200 "key.png" Fixture.start =
    (Fixture.start, Returns (Some (WithStackOf ErrInvalidKey))).
Proof.
  assert (H : ~ 0 <= 200 <= 14) by lia.
  exact (conj H (proj2 (proj2 (invalid_keys_refused Fixture.start Sample.once
                                 200 "key.png" H)))).
Defined.

Section RegistryLaws.

Context {W : Type}.
Implicit Types (s : State W) (fn : KeyPressFn W) (k key : Z).

Lemma with_handlers_same s : with_handlers (handlers s) s = s.
Proof. by destruct s. Qed.

Lemma SetKeyHandler_valid s fn k :
  0 <= k <= 14 ->
  SetKeyHandler k fn s = (with_handlers (<[k := fn]> (handlers s)) s, None).
Proof. intros Hk. unfold SetKeyHandler. by rewrite key_guard_accepts. Qed.

Lemma ClearKeyHandler_valid s k :
  0 <= k <= 14 ->
  ClearKeyHandler k s = (with_handlers (delete k (handlers s)) s, None).
Proof. intros Hk. unfold ClearKeyHandler. by rewrite key_guard_accepts. Qed.

Lemma SetKeyHandler_handlers_255 s fn key :
  handlers (SetKeyHandler key fn s).1 !! 255 = handlers s !! 255.
Proof.
  unfold SetKeyHandler. destruct ((key <? 0) || (14 <? key)) eqn:E; [ done | ].
  apply orb_false_iff in E as [_ E]. apply Z.ltb_ge in E.
  simpl. apply lookup_insert_ne. lia.
Qed.

Lemma ClearKeyHandler_handlers_255 s key :
  handlers (ClearKeyHandler key s).1 !! 255 = handlers s !! 255.
Proof.
  unfold ClearKeyHandler. destruct ((key <? 0) || (14 <? key)) eqn:E; [ done | ].
  apply orb_false_iff in E as [_ E]. apply Z.ltb_ge in E.
  simpl. apply lookup_delete_ne. lia.
Qed.

End RegistryLaws.

(** Setting, replacing and clearing a handler: [SetKeyHandler] stores the
    handler under its key; a second [SetKeyHandler] for the key replaces the
    first without trace; [ClearKeyHandler] removes it, restores the deck
    exactly when the key had no handler before, and is idempotent. *)
Theorem handler_set_clear {W} (s : State W) (f1 f2 : KeyPressFn W) k :
  0 <= k <= 14 ->
  let set f (st : State W) := (SetKeyHandler k f st).1 in
  let clear (st : State W) := (ClearKeyHandler k st).1 in
  handlers (set f1 s) !! k = Some f1 /\
  set f2 (set f1 s) = set f2 s /\
  handlers (clear (set f1 s)) !! k = None /\
  clear (set f1 s) = clear s /\
  (handlers s !! k = None -> clear (set f1 s) = s) /\
  clear (clear s) = clear s.
Proof.
  intros Hk set clear. unfold set, clear.
  repeat first [ rewrite SetKeyHandler_valid by done
               | rewrite ClearKeyHandler_valid by done ].
  destruct s as [e d h w c o]. unfold with_handlers. simpl.
  split; [ apply lookup_insert_eq | ].
  split; [ by rewrite insert_insert_eq | ].
  split; [ apply lookup_delete_eq | ].
  split; [ by rewrite delete_insert_eq | ].
  split; [ intros Hnone; rewrite delete_insert_eq; by rewrite delete_id | ].
  by rewrite delete_delete_eq.
Qed.

Lemma handler_set_clear_witness :
  0 <= 7 <= 14 /\
  (ClearKeyHandler 7 (SetKeyHandler 7 Sample.once Sample.start).1).1
  = Sample.start.
Proof.
  assert (H : 0 <= 7 <= 14) by lia.
  destruct (handler_set_clear Sample.start Sample.once Sample.once 7 H)
    as (_ & _ & _ & _ & Hback & _).
  exact (conj H (Hback eq_refl)).
Defined.

(** The global slot and the key slots do not interfere: no call of
    [SetKeyHandler] or [ClearKeyHandler], whatever its key, changes the
    global handler, and [SetGlobalKeyHandler] and [ClearGlobalKeyHandler]
    change no other slot than 255. *)
Theorem global_slot_separate {W} (s : State W) (fn : KeyPressFn W) key :
  handlers (SetKeyHandler key fn s).1 !! 255 = handlers s !! 255 /\
  handlers (ClearKeyHandler key s).1 !! 255 = handlers s !! 255 /\
  handlers (SetGlobalKeyHandler fn s) !! 255 = Some fn /\
  handlers (ClearGlobalKeyHandler s) !! 255 = None /\
  (key = 255 \/ handlers (SetGlobalKeyHandler fn s) !! key = handlers s !! key) /\
  (key = 255 \/ handlers (ClearGlobalKeyHandler s) !! key = handlers s !! key).
Proof.
  split; [ apply SetKeyHandler_handlers_255 | ].
  split; [ apply ClearKeyHandler_handlers_255 | ].
  split; [ apply lookup_insert_eq | ].
  split; [ apply lookup_delete_eq | ].
  destruct (decide (key = 255)) as [ | Hne ]; [ by split; left | ].
  split; right; simpl.
  - by apply lookup_insert_ne.
  - by apply lookup_delete_ne.
Qed.

(** ** [ProcessEvents] as a whole *)

Section EventsFrame.

Context {W : Type}.
Implicit Types (s st : State W) (report data l : list Z) (id m k : Z)
               (toKey : Z -> Z).

Lemma processEvents_read_error toKey timeout s d report bytes e :
  hid.ReadTimeout (replicate 16 0) timeout (device s)
    = (d, (report, bytes, Some e)) ->
  processEvents toKey timeout s =
    (with_device d s, Some (WrapfOf e "error reading key press")).
Proof. intros Hread. unfold processEvents. by rewrite Hread. Qed.

Lemma processEvents_no_bytes toKey timeout s d report bytes :
  hid.ReadTimeout (replicate 16 0) timeout (device s)
    = (d, (report, bytes, None)) ->
  bytes <= 0 ->
  processEvents toKey timeout s = (with_device d s, None).
Proof.
  intros Hread Hle. unfold processEvents. rewrite Hread.
  destruct (Z.ltb_spec 0 bytes); [ lia | done ].
Qed.

Lemma ReadTimeout_device b timeout d :
  (hid.ReadTimeout b timeout d).1 =
  hid.mkDevice (hid.written d) (hid.write_script d) (tail (hid.read_script d)).
Proof.
  unfold hid.ReadTimeout. destruct d as [wr ws rs]. simpl.
  by destruct rs as [ | [data | e] rest ].
Qed.

Lemma dispatchKey_shrinks st k :
  handlers (dispatchKey k st) ⊆ handlers st /\
  exists new, calls (dispatchKey k st) = calls st ++ new /\
              Forall (fun k' => is_Some (handlers st !! k')) new.
Proof.
  destruct (handlers st !! k) as [fn | ] eqn:E.
  - rewrite (dispatchKey_present _ _ _ E). simpl. split.
    + destruct (fn k (world st)).1; [ done | apply delete_subseteq ].
    + exists [k]. split; [ done | ]. constructor; [ by rewrite E | constructor ].
  - rewrite (dispatchKey_absent _ _ E). split; [ done | ].
    exists []. split; [ by rewrite app_nil_r | constructor ].
Qed.

Lemma registered_mono (h1 h2 : gmap Z (KeyPressFn W)) new :
  h1 ⊆ h2 ->
  Forall (fun k' => is_Some (h1 !! k')) new ->
  Forall (fun k' => is_Some (h2 !! k')) new.
Proof.
  intros Hsub Hall. eapply Forall_impl; [ exact Hall | ].
  intros k' [fn Hfn]. exists fn. by apply (lookup_weaken h1 h2).
Qed.

Lemma press_shrinks toKey st id :
  handlers (press toKey st id) ⊆ handlers st /\
  exists new, calls (press toKey st id) = calls st ++ new /\
              Forall (fun k' => is_Some (handlers st !! k')) new.
Proof.
  unfold press.
  destruct (dispatchKey_shrinks st 255) as (Hs1 & new1 & Hc1 & Hr1).
  destruct (dispatchKey_shrinks (dispatchKey 255 st) (toKey (byte_of id)))
    as (Hs2 & new2 & Hc2 & Hr2).
  split; [ by etrans | ].
  exists (new1 ++ new2). split; [ by rewrite Hc2, Hc1, app_assoc | ].
  apply Forall_app. split; [ done | by apply (registered_mono _ _ _ Hs1) ].
Qed.

Lemma foldl_press_shrinks toKey ids : forall st,
  handlers (foldl (press toKey) st ids) ⊆ handlers st /\
  exists new, calls (foldl (press toKey) st ids) = calls st ++ new /\
              Forall (fun k' => is_Some (handlers st !! k')) new.
Proof.
  induction ids as [ | id ids IH ]; intros st.
  - split; [ done | ]. exists []. split; [ by rewrite app_nil_r | constructor ].
  - simpl. destruct (press_shrinks toKey st id) as (Hs1 & new1 & Hc1 & Hr1).
    destruct (IH (press toKey st id)) as (Hs2 & new2 & Hc2 & Hr2).
    split; [ by etrans | ].
    exists (new1 ++ new2). split; [ by rewrite Hc2, Hc1, app_assoc | ].
    apply Forall_app. split; [ done | by apply (registered_mono _ _ _ Hs1) ].
Qed.

(** Every run of [processEvents] is a run of presses on the deck with the
    device after the read, followed by at most one printed line. *)
Lemma processEvents_shape toKey timeout s :
  exists ids out,
    (length out <= 1)%nat /\
    Forall (fun id => 0 <= id <= 14) ids /\
    let st := foldl (press toKey)
                    (with_device
                       (hid.ReadTimeout (replicate 16 0) timeout (device s)).1 s)
                    ids in
    (processEvents toKey timeout s).1 =
      mkState (env st) (device st) (handlers st) (world st) (calls st)
              (stdout st ++ out).
Proof.
  destruct (hid.ReadTimeout (replicate 16 0) timeout (device s))
    as [d [[report bytes] err]] eqn:Hread.
  assert (Heta : forall st : State W,
            st = mkState (env st) (device st) (handlers st) (world st)
                         (calls st) (stdout st ++ [])).
  { intros [e d' h w c o]. simpl. by rewrite app_nil_r. }
  destruct err as [e | ].
  { exists [], []. rewrite (processEvents_read_error _ _ _ _ _ _ _ Hread).
    split; [ simpl; lia | split; [ constructor | apply Heta ] ]. }
  destruct (decide (0 < bytes)) as [Hpos | Hle].
  2: { exists [], []. rewrite (processEvents_no_bytes _ _ _ _ _ _ Hread) by lia.
       split; [ simpl; lia | split; [ constructor | apply Heta ] ]. }
  pose proof (ReadTimeout_length _ _ _ _ _ _ _ Hread) as Hlen.
  rewrite length_replicate in Hlen.
  destruct report as [ | reportId report ]; [ done | ].
  destruct (decide (reportId = 1)) as [-> | Hne].
  - exists (pressed (1 :: report)), [].
    rewrite (processEvents_key_report _ _ _ _ _ _ Hread Hpos eq_refl).
    split; [ simpl; lia | split; [ | apply Heta ] ].
    apply Forall_forall. intros id Hin. by apply (pressed_bound (1 :: report)).
  - exists [], [unexpected_report reportId].
    rewrite (processEvents_other_report _ _ _ _ _ _ _ Hread Hpos eq_refl Hne).
    split; [ simpl; lia | split; [ constructor | done ] ].
Qed.

Lemma foldl_press_ext toKey1 toKey2 ids : forall st,
  Forall (fun id => toKey1 (byte_of id) = toKey2 (byte_of id)) ids ->
  foldl (press toKey1) st ids = foldl (press toKey2) st ids.
Proof.
  induction ids as [ | id ids IH ]; intros st Hall; [ done | ].
  apply Forall_cons in Hall as [Hid Hall]. simpl.
  unfold press at 2 4. rewrite Hid. by apply IH.
Qed.

Lemma processEvents_ext toKey1 toKey2 timeout s :
  (forall id, 0 <= id <= 14 -> toKey1 (byte_of id) = toKey2 (byte_of id)) ->
  processEvents toKey1 timeout s = processEvents toKey2 timeout s.
Proof.
  intros Hagree.
  destruct (hid.ReadTimeout (replicate 16 0) timeout (device s))
    as [d [[report bytes] err]] eqn:Hread.
  destruct err as [e | ].
  { by rewrite !(processEvents_read_error _ _ _ _ _ _ _ Hread). }
  destruct (decide (0 < bytes)) as [Hpos | Hle].
  2: { by rewrite !(processEvents_no_bytes _ _ _ _ _ _ Hread) by lia. }
  pose proof (ReadTimeout_length _ _ _ _ _ _ _ Hread) as Hlen.
  rewrite length_replicate in Hlen.
  destruct report as [ | reportId report ]; [ done | ].
  destruct (decide (reportId = 1)) as [-> | Hne].
  - rewrite !(processEvents_key_report _ _ _ _ _ _ Hread Hpos eq_refl).
    f_equal. apply foldl_press_ext. apply Forall_forall. intros id Hin.
    apply Hagree. by apply (pressed_bound (1 :: report)).
  - by rewrite !(processEvents_other_report _ _ _ _ _ _ _ Hread Hpos eq_refl Hne).
Qed.

(** States that the device does not deliver count as released. *)
Lemma filter_pressed_zeros n : forall m,
  filter (fun p : Z * Z => p.2 = 1)
         (zip (seqZ m (Z.of_nat (length (replicate n 0)))) (replicate n 0)) = [].
Proof.
  induction n as [ | n IH ]; intros m; [ done | ].
  change (replicate (S n) 0) with (0 :: replicate n 0).
  rewrite zip_seqZ_cons, filter_cons.
  destruct (decide ((m, 0).2 = 1)) as [E | _]; [ done | apply IH ].
Qed.

Lemma filter_pressed_padded l n : forall m,
  filter (fun p : Z * Z => p.2 = 1)
         (zip (seqZ m (Z.of_nat (length (l ++ replicate n 0)))) (l ++ replicate n 0))
  = filter (fun p : Z * Z => p.2 = 1) (zip (seqZ m (Z.of_nat (length l))) l).
Proof.
  induction l as [ | x l IH ]; intros m.
  - simpl app. rewrite filter_pressed_zeros. done.
  - change ((x :: l) ++ replicate n 0) with (x :: (l ++ replicate n 0)).
    rewrite !zip_seqZ_cons, !filter_cons.
    destruct (decide ((m, x).2 = 1)); by rewrite IH.
Qed.

Lemma pressed_padded x l n : pressed ((x :: l) ++ replicate n 0) = pressed (x :: l).
Proof.
  unfold pressed, range. simpl drop. rewrite !drop_0.
  by rewrite filter_pressed_padded.
Qed.

End EventsFrame.

Lemma tables_formula (id : Z) :
  0 <= id <= 14 ->
  Rev1.internalIdToKey (byte_of id) = Rev2.invertKeyOrId (byte_of id).
Proof. intros H. rewrite byte_of_small by done. key_cases H; reflexivity. Qed.

(** When the timed read fails, [ProcessEvents] returns the error wrapped as
    "error reading key press" and does nothing else: no handler runs, the
    registry, the caller's state and the output are as before, whatever the
    report buffer holds. *)
Theorem read_failure {W} (s : State W) timeout d report bytes e :
  hid.ReadTimeout (replicate 16 0) timeout (device s)
    = (d, (report, bytes, Some e)) ->
  Rev2.ProcessEvents timeout s =
    (mkState (env s) d (handlers s) (world s) (calls s) (stdout s),
     Some (WrapfOf e "error reading key press")) /\
  Rev1.ProcessEvents timeout s = Rev2.ProcessEvents timeout s.
Proof.
  intros Hread. unfold Rev1.ProcessEvents, Rev2.ProcessEvents.
  by rewrite !(processEvents_read_error _ _ _ _ _ _ _ Hread).
Qed.

Lemma read_failure_witness :
  let s := with_device
             (hid.mkDevice [] [] [hid.ReadFails (ErrExternal "hid: read failed")])
             Sample.armed in
  hid.ReadTimeout (replicate 16 0) 0 (device s)
    = (Sample.quiet, (replicate 16 0, 0, Some (ErrExternal "hid: read failed"))) /\
  (Rev2.ProcessEvents 0 s).2 =
    Some (WrapfOf (ErrExternal "hid: read failed") "error reading key press") /\
  calls (Rev2.ProcessEvents 0 s).1 = [].
Proof.
  intros s.
  assert (H : hid.ReadTimeout (replicate 16 0) 0 (device s)
    = (Sample.quiet, (replicate 16 0, 0, Some (ErrExternal "hid: read failed"))))
    by reflexivity.
  destruct (read_failure s 0 _ _ _ _ H) as [E _].
  split; [ exact H | ]. rewrite E. split; reflexivity.
Defined.

(** The two revisions of [ProcessEvents] do the same on every deck and
    every read: the formula and the table translate the fifteen positions
    of a report alike, and no other value is ever translated. *)
Theorem ProcessEvents_revisions_agree {W} (s : State W) timeout :
  Rev1.ProcessEvents timeout s = Rev2.ProcessEvents timeout s.
Proof.
  unfold Rev1.ProcessEvents, Rev2.ProcessEvents.
  apply processEvents_ext. apply tables_formula.
Qed.

(** Only the bytes that the device delivered can press a key.  When the
    read delivers [data] whose first byte is 1, [ProcessEvents] handles the
    presses of the first 16 bytes of [data]: a position beyond the end of a
    short report counts as released (the buffer starts out as zeros), and
    bytes after the sixteenth are not looked at. *)
Theorem undelivered_bytes_released {W} (s : State W) timeout data rest :
  hid.read_script (device s) = hid.ReadData data :: rest ->
  data !! 0%nat = Some 1 ->
  Rev2.ProcessEvents timeout s =
    (foldl (press Rev2.invertKeyOrId)
           (with_device (hid.mkDevice (hid.written (device s))
                                      (hid.write_script (device s)) rest) s)
           (pressed (take 16 data)), None) /\
  forall id, id ∈ pressed (take 16 data) <->
             0 <= id <= 14 /\ data !! S (Z.to_nat id) = Some 1.
Proof.
  intros Hscript Hfirst.
  destruct data as [ | x data ]; [ done | ]. injection Hfirst as ->.
  set (n := Nat.min (length (1 :: data)) 16).
  assert (Hn : (1 <= n <= 16)%nat) by (unfold n; simpl; lia).
  assert (Hread : hid.ReadTimeout (replicate 16 0) timeout (device s)
    = (hid.mkDevice (hid.written (device s)) (hid.write_script (device s)) rest,
       (take 16 (1 :: data) ++ replicate (16 - n) 0, Z.of_nat n, None))).
  { unfold hid.ReadTimeout. rewrite Hscript, length_replicate.
    fold n. rewrite drop_replicate. do 3 f_equal.
    unfold n. destruct (Nat.min_spec (length (1 :: data)) 16) as [[Hlt ->] | [Hge ->]];
      [ by rewrite !take_ge by lia | done ]. }
  split.
  - unfold Rev2.ProcessEvents.
    rewrite (processEvents_key_report _ _ _ _ _ _ Hread ltac:(lia) eq_refl).
    change (take 16 (1 :: data)) with (1 :: take 15 data).
    by rewrite pressed_padded.
  - intros id. rewrite pressed_spec. split.
    + intros [H0 Hl]. apply lookup_take_Some in Hl as [Hl Hlt].
      split; [ lia | done ].
    + intros [H0 Hl]. split; [ lia | ]. apply lookup_take_Some.
      split; [ done | lia ].
Qed.

Lemma undelivered_bytes_released_witness :
  let s := with_device (hid.mkDevice [] [] [hid.ReadData [1]]) Sample.armed in
  hid.read_script (device s) = hid.ReadData [1] :: [] /\
  [1] !! 0%nat = Some 1 /\
  calls (Rev2.ProcessEvents 0 s).1 = [].
Proof.
  intros s.
  assert (H1 : hid.read_script (device s) = hid.ReadData [1] :: []) by reflexivity.
  assert (H2 : [1] !! 0%nat = Some 1) by reflexivity.
  destruct (undelivered_bytes_released s 0 [1] [] H1 H2) as [E _].
  split; [ exact H1 | split; [ exact H2 | ] ]. by rewrite E.
Defined.

(** ** The scanline walk *)

Section Scan.

Context {A B : Type}.
Implicit Types (f g : A -> list B) (l : list A).

Lemma length_flat_map_const f l (c : nat) :
  (forall x, length (f x) = c) -> length (flat_map f l) = (length l * c)%nat.
Proof.
  intros Hc. induction l as [ | x l IH ]; [ done | ].
  simpl. rewrite length_app, Hc, IH. lia.
Qed.

Lemma Forall_flat_map_all (P : B -> Prop) f l :
  (forall x, Forall P (f x)) -> Forall P (flat_map f l).
Proof.
  intros Hf. induction l as [ | x l IH ]; [ constructor | ].
  simpl. apply Forall_app. by split.
Qed.

Lemma flat_map_agree f g l :
  Forall (fun x => f x = g x) l -> flat_map f l = flat_map g l.
Proof.
  induction 1 as [ | x l Hx _ IH ]; [ done | ]. simpl. by rewrite Hx, IH.
Qed.

(** The [k]-th element of the [i]-th chunk, when all chunks have length [c]. *)
Lemma lookup_flat_map_const f l (c : nat) : forall (i k : nat) x y,
  (forall x', length (f x') = c) ->
  l !! i = Some x ->
  f x !! k = Some y ->
  flat_map f l !! (i * c + k)%nat = Some y.
Proof.
  induction l as [ | x0 l IH ]; intros i k x y Hc Hi Hk; [ done | ].
  simpl flat_map. destruct i as [ | i ].
  - injection Hi as ->. simpl. by apply lookup_app_l_Some.
  - simpl in Hi. rewrite lookup_app_r by (rewrite Hc; lia).
    rewrite Hc. replace (S i * c + k - c)%nat with (i * c + k)%nat by lia.
    by apply (IH i k x y).
Qed.

End Scan.

(** The three bytes that the walk appends for one pixel. *)
Lemma scan_pixel_length (img : image.Image) (y i : Z) :
  length (let x := image.MaxX (image.Bounds img) - i in
          let '(r, g, b, _) := image.At img x y in
          [byte_of b; byte_of g; byte_of r]) = 3%nat.
Proof. cbv zeta. by destruct (image.At img _ y) as [[[r g] b] a]. Qed.

Lemma byte_of_is_byte (z : Z) : is_byte (byte_of z).
Proof. unfold is_byte, byte_of. apply Z.mod_pos_bound. lia. Qed.

Lemma scanImage_length (img : image.Image) :
  length (scanImage img) = (Z.to_nat (height img) * (Z.to_nat (width img) * 3))%nat.
Proof.
  unfold scanImage, height, width.
  rewrite (length_flat_map_const _ _ (Z.to_nat (image.MaxX (image.Bounds img)
                                      - image.MinX (image.Bounds img)) * 3)).
  - by rewrite length_seqZ.
  - intros y. rewrite (length_flat_map_const _ _ 3).
    + by rewrite length_seqZ.
    + intros i. apply scan_pixel_length.
Qed.

(** The pixel buffer of a decoded image holds three bytes per pixel of its
    bounds (none when a side is not positive), and each of them is a byte:
    the 16-bit channels are cut down to their low 8 bits. *)
Theorem scanImage_size (img : image.Image) :
  Z.of_nat (length (scanImage img)) =
    3 * Z.max 0 (width img) * Z.max 0 (height img) /\
  Forall is_byte (scanImage img).
Proof.
  split; [ rewrite scanImage_length; lia | ].
  unfold scanImage. apply Forall_flat_map_all. intros y.
  apply Forall_flat_map_all. intros i. cbv zeta.
  destruct (image.At img _ y) as [[[r g] b] a].
  repeat constructor; apply byte_of_is_byte.
Qed.

(** The layout of the pixel buffer: rows from top to bottom, and in row
    [j] the [i]-th pixel is the one at [x = Max.X - i], so the row starts
    at [Max.X], one column to the right of the bounds, and stops before
    [Min.X]; each pixel is stored as blue, green, red. *)
Theorem scanImage_layout (img : image.Image) (i j : Z) :
  0 <= i < width img ->
  0 <= j < height img ->
  let x := image.MaxX (image.Bounds img) - i in
  let y := image.MinY (image.Bounds img) + j in
  let p := Z.to_nat (3 * (j * width img + i)) in
  scanImage img !! p = Some (byte_of (image.At img x y).1.2) /\
  scanImage img !! S p = Some (byte_of (image.At img x y).1.1.2) /\
  scanImage img !! S (S p) = Some (byte_of (image.At img x y).1.1.1).
Proof.
  intros Hi Hj x y p.
  assert (Hrow : seqZ (image.MinY (image.Bounds img)) (height img)
                   !! Z.to_nat j = Some y).
  { apply lookup_seqZ. unfold y. lia. }
  assert (Hcol : seqZ 0 (width img) !! Z.to_nat i = Some i).
  { apply lookup_seqZ. lia. }
  assert (Hp : forall k, (k < 3)%nat ->
            (p + k = Z.to_nat j * (Z.to_nat (width img) * 3)
                     + (Z.to_nat i * 3 + k))%nat) by (intros k Hk; unfold p; nia).
  assert (Hget : forall k b, (k < 3)%nat ->
            (let '(r, g, b, _) := image.At img x y in
             [byte_of b; byte_of g; byte_of r]) !! k = Some b ->
            scanImage img !! (p + k)%nat = Some b).
  { intros k b Hk Hb. rewrite (Hp k Hk). unfold scanImage.
    eapply (lookup_flat_map_const _ _ _ (Z.to_nat j)); [ | exact Hrow | ].
    - intros y'. rewrite (length_flat_map_const _ _ 3).
      + by rewrite length_seqZ.
      + intros i'. apply scan_pixel_length.
    - eapply (lookup_flat_map_const _ _ 3 (Z.to_nat i)); [ | exact Hcol | exact Hb ].
      intros i'. apply scan_pixel_length. }
  destruct (image.At img x y) as [[[r g] b] a] eqn:E. simpl.
  split; [ | split ].
  - rewrite <- (Nat.add_0_r p). by apply Hget; [ lia | ].
  - replace (S p) with (p + 1)%nat by lia. by apply Hget; [ lia | ].
  - replace (S (S p)) with (p + 2)%nat by lia. by apply Hget; [ lia | ].
Qed.

Lemma scanImage_layout_witness :
  0 <= 0 < width Fixture.gradient /\ 0 <= 0 < height Fixture.gradient /\
  scanImage Fixture.gradient !! 0%nat = Some 72 /\
  scanImage Fixture.gradient !! 1%nat = Some 0 /\
  scanImage Fixture.gradient !! 2%nat = Some 72.
Proof.
  assert (Hi : 0 <= 0 < width Fixture.gradient) by (vm_compute; split; [ discriminate | reflexivity ]).
  assert (Hj : 0 <= 0 < height Fixture.gradient) by (vm_compute; split; [ discriminate | reflexivity ]).
  exact (conj Hi (conj Hj (scanImage_layout Fixture.gradient 0 0 Hi Hj))).
Defined.

(** The walk never looks at the leftmost column [x = Min.X] of the bounds:
    two images with the same bounds that agree on the columns
    [Min.X + 1 .. Max.X] of the rows [Min.Y .. Max.Y - 1] give the same
    pixel buffer. *)
Theorem scanImage_skips_min_column (img1 img2 : image.Image) :
  image.Bounds img1 = image.Bounds img2 ->
  (forall x y,
     image.MinX (image.Bounds img1) < x <= image.MaxX (image.Bounds img1) ->
     image.MinY (image.Bounds img1) <= y < image.MaxY (image.Bounds img1) ->
     image.At img1 x y = image.At img2 x y) ->
  scanImage img1 = scanImage img2.
Proof.
  intros Hb Hat. unfold scanImage. rewrite <- Hb.
  apply flat_map_agree. apply Forall_forall. intros y Hy.
  apply elem_of_seqZ in Hy.
  apply flat_map_agree. apply Forall_forall. intros i Hi.
  apply elem_of_seqZ in Hi. cbv zeta.
  rewrite (Hat (image.MaxX (image.Bounds img1) - i) y) by lia. done.
Qed.

Lemma scanImage_skips_min_column_witness :
  image.At Fixture.gradient 0 5 <> image.At Fixture.gradient' 0 5 /\
  scanImage Fixture.gradient = scanImage Fixture.gradient'.
Proof.
  split; [ vm_compute; discriminate | ].
  apply scanImage_skips_min_column; [ reflexivity | ].
  intros x y Hx Hy. change (image.MinX (image.Bounds Fixture.gradient)) with 0 in Hx.
  unfold image.At, Fixture.gradient, Fixture.gradient'.
  destruct (Z.eqb_spec x 0); [ lia | reflexivity ].
Defined.

(** ** [SetKeyImage] as a whole *)

Section ImageFrame.

Context {W : Type}.
Implicit Types (s : State W) (d : hid.Device) (header payload : list Z)
               (sl : slice) (id key : Z).

Lemma with_device_same s : with_device (device s) s = s.
Proof. by destruct s. Qed.

Lemma writePage_device header payload d :
  exists script,
    (writePage header payload d).1 =
    hid.mkDevice (hid.written d ++ [header ++ payload]) script (hid.read_script d).
Proof.
  unfold writePage, hid.Write. simpl.
  destruct (hid.write_script d) as [ | o script ]; eexists; reflexivity.
Qed.

Lemma header_key_byte id payload :
  (header1 id ++ payload) !! 5%nat = Some id /\
  (header2 id ++ payload) !! 5%nat = Some id.
Proof. split; reflexivity. Qed.

(** What a call of [sendKeyImage] can change: the device's write log, by
    at most the two pages of this key, and its write script. *)
Lemma sendKeyImage_effect id filename s :
  exists d new,
    (sendKeyImage id filename s).1 = with_device d s /\
    hid.read_script d = hid.read_script (device s) /\
    hid.written d = hid.written (device s) ++ new /\
    (length new <= 2)%nat /\
    Forall (fun page => page !! 5%nat = Some id) new.
Proof.
  assert (Hnone : exists d new,
            s = with_device d s /\
            hid.read_script d = hid.read_script (device s) /\
            hid.written d = hid.written (device s) ++ new /\
            (length new <= 2)%nat /\
            Forall (fun page => page !! 5%nat = Some id) new).
  { exists (device s), []. rewrite with_device_same, app_nil_r.
    repeat split; [ simpl; lia | constructor ]. }
  unfold sendKeyImage.
  destruct (loadImage (env s) filename) as [img [err | ]]; [ exact Hnone | ].
  destruct (slice_upto (imageBytesOf (env s) img) imageBytesOnPage1)
    as [payload1 | ]; [ | exact Hnone ].
  destruct (writePage_device (header1 id) payload1 (device s)) as [script1 Hd1].
  destruct (writePage (header1 id) payload1 (device s)) as [d1 err1].
  simpl in Hd1. subst d1.
  assert (Hone : exists d new,
            with_device
              (hid.mkDevice (hid.written (device s) ++ [header1 id ++ payload1])
                            script1 (hid.read_script (device s))) s
            = with_device d s /\
            hid.read_script d = hid.read_script (device s) /\
            hid.written d = hid.written (device s) ++ new /\
            (length new <= 2)%nat /\
            Forall (fun page => page !! 5%nat = Some id) new).
  { eexists _, [_]. repeat split; [ simpl; lia | ].
    repeat constructor. }
  destruct err1 as [e1 | ]; [ exact Hone | ].
  destruct (slice_from (imageBytesOf (env s) img) imageBytesOnPage1)
    as [payload2 | ]; [ | exact Hone ].
  match goal with
  | |- context [ writePage ?h ?p ?d ] =>
      destruct (writePage_device h p d) as [script2 Hd2];
      destruct (writePage h p d) as [d2 err2]
  end.
  simpl in Hd2. subst d2.
  assert (Htwo : exists d new,
            with_device
              (hid.mkDevice ((hid.written (device s) ++ [header1 id ++ payload1])
                               ++ [header2 id ++ payload2])
                            script2 (hid.read_script (device s))) s
            = with_device d s /\
            hid.read_script d = hid.read_script (device s) /\
            hid.written d = hid.written (device s) ++ new /\
            (length new <= 2)%nat /\
            Forall (fun page => page !! 5%nat = Some id) new).
  { eexists _, [_; _]. split; [ reflexivity | ]. split; [ reflexivity | ].
    split; [ simpl; by rewrite <- app_assoc | ]. split; [ simpl; lia | ].
    repeat constructor. }
  destruct err2; exact Htwo.
Qed.

(** Slicing a buffer at [n] loses nothing when the second slice exists. *)
Lemma slices_cover sl (n : nat) payload2 :
  slice_from sl n = Some payload2 ->
  slice_upto sl n = Some (take n (elems sl)) /\
  payload2 = drop n (elems sl) /\ (n <= length (elems sl))%nat.
Proof.
  unfold slice_from, slice_upto. intros H.
  destruct (decide (n <= length (elems sl))%nat) as [Hle | ]; [ | done ].
  injection H as <-.
  destruct (decide (n <= length (elems sl) + spare sl)%nat); [ | lia ].
  by rewrite take_app_le.
Qed.

(** A call that returns [nil] has written both pages, and together they
    carry the pixel buffer from its first byte to its last. *)
Lemma sendKeyImage_success id filename s img :
  loadImage (env s) filename = (img, None) ->
  (sendKeyImage id filename s).2 = Returns None ->
  let buffer := elems (imageBytesOf (env s) img) in
  hid.written (device (sendKeyImage id filename s).1) =
    hid.written (device s)
      ++ [header1 id ++ take imageBytesOnPage1 buffer;
          header2 id ++ drop imageBytesOnPage1 buffer] /\
  (imageBytesOnPage1 <= length buffer)%nat.
Proof.
  intros Hload. unfold sendKeyImage. rewrite Hload.
  destruct (slice_upto (imageBytesOf (env s) img) imageBytesOnPage1)
    as [payload1 | ] eqn:Hs1; [ | done ].
  pose proof (writePage_written (header1 id) payload1 (device s)) as Hw1.
  destruct (writePage (header1 id) payload1 (device s)) as [d1 [e1 | ]]; [ done | ].
  destruct (slice_from (imageBytesOf (env s) img) imageBytesOnPage1)
    as [payload2 | ] eqn:Hs2; [ | done ].
  destruct (slices_cover _ _ _ Hs2) as (Hs1' & -> & Hlen).
  rewrite Hs1' in Hs1. injection Hs1 as <-.
  match goal with
  | |- context [ writePage ?h ?p ?d ] =>
      pose proof (writePage_written h p d) as Hw2;
      destruct (writePage h p d) as [d2 [e2 | ]]
  end; [ done | ].
  intros _. cbn [fst snd device with_device] in *.
  rewrite Hw2, Hw1, <- app_assoc. done.
Qed.

(** With both writes accepted and a buffer that fills the first page, the
    call returns [nil]. *)
Lemma sendKeyImage_accepted id filename s img :
  loadImage (env s) filename = (img, None) ->
  (imageBytesOnPage1 <= length (elems (imageBytesOf (env s) img)))%nat ->
  Forall (fun o => o = None) (take 2 (hid.write_script (device s))) ->
  let buffer := elems (imageBytesOf (env s) img) in
  sendKeyImage id filename s =
    (with_device
       (hid.mkDevice (hid.written (device s)
                        ++ [header1 id ++ take imageBytesOnPage1 buffer;
                            header2 id ++ drop imageBytesOnPage1 buffer])
                     (drop 2 (hid.write_script (device s)))
                     (hid.read_script (device s))) s,
     Returns None).
Proof.
  intros Hload Hlen Hok buffer. unfold sendKeyImage. rewrite Hload.
  assert (Hs1 : slice_upto (imageBytesOf (env s) img) imageBytesOnPage1
                = Some (take imageBytesOnPage1 buffer)).
  { unfold slice_upto. rewrite decide_True by lia. by rewrite take_app_le. }
  assert (Hs2 : slice_from (imageBytesOf (env s) img) imageBytesOnPage1
                = Some (drop imageBytesOnPage1 buffer)).
  { unfold slice_from. by rewrite decide_True. }
  rewrite Hs1, Hs2.
  destruct (device s) as [wr ws rs]. simpl in Hok |- *.
  unfold writePage, hid.Write. simpl.
  destruct ws as [ | o1 [ | o2 ws ] ]; simpl in Hok |- *.
  - by rewrite <- app_assoc.
  - apply Forall_cons in Hok as [-> _]. simpl. by rewrite <- app_assoc.
  - apply Forall_cons in Hok as [-> Hok]. apply Forall_cons in Hok as [-> _].
    simpl. by rewrite <- app_assoc.
Qed.

Lemma loadImage_decoded (e : Env) filename img :
  filename <> "" -> decode e filename = inr img ->
  loadImage e filename = (Some img, None).
Proof.
  intros Hne Hdec. unfold loadImage. rewrite decide_False by done.
  by rewrite Hdec.
Qed.

Lemma loadImage_failed (e : Env) filename err :
  filename <> "" -> decode e filename = inl err ->
  loadImage e filename = (None, Some (WithStackOf err)).
Proof.
  intros Hne Hdec. unfold loadImage. rewrite decide_False by done.
  by rewrite Hdec.
Qed.

End ImageFrame.

Lemma image_id_valid (key : Z) :
  0 <= key <= 14 ->
  byte_of (Rev2.invertKeyOrId key + 1) = Rev1.keyToInternalId key + 1 /\
  0 <= Rev1.keyToInternalId key <= 14 /\
  Rev1.keyToInternalId (Rev1.keyToInternalId key) = key.
Proof. intros H. key_cases H; vm_compute; repeat split; discriminate. Qed.

(** [SetKeyImage] touches the device's write side only: handlers, caller
    state, logs, environment and the pending reads are as before; it hands
    at most two buffers to the device, and each of them carries the key id
    at offset 5. *)
Theorem SetKeyImage_effect {W} (s : State W) key filename :
  let id := byte_of (Rev2.invertKeyOrId key + 1) in
  exists d new,
    (Rev2.SetKeyImage key filename s).1 = with_device d s /\
    hid.read_script d = hid.read_script (device s) /\
    hid.written d = hid.written (device s) ++ new /\
    (length new <= 2)%nat /\
    Forall (fun page => page !! 5%nat = Some id) new.
Proof. intros id. apply sendKeyImage_effect. Qed.

(** When [SetKeyImage] returns [nil], it has written exactly two buffers
    and nothing of the pixel buffer is lost or repeated: the payloads are
    its first 7749 bytes and all the bytes after them.  So a pixel buffer
    shorter than 7749 bytes never leads to [nil]. *)
Theorem SetKeyImage_success {W} (s : State W) key filename img :
  loadImage (env s) filename = (img, None) ->
  (Rev2.SetKeyImage key filename s).2 = Returns None ->
  let id := byte_of (Rev2.invertKeyOrId key + 1) in
  let buffer := elems (imageBytesOf (env s) img) in
  exists payload1 payload2,
    hid.written (device (Rev2.SetKeyImage key filename s).1) =
      hid.written (device s) ++ [header1 id ++ payload1; header2 id ++ payload2] /\
    payload1 ++ payload2 = buffer /\
    Z.of_nat (length payload1) = 7749 /\
    7749 <= Z.of_nat (length buffer).
Proof.
  intros Hload Hnil id buffer.
  destruct (sendKeyImage_success id filename s img Hload Hnil) as [Hw Hlen].
  exists (take imageBytesOnPage1 buffer), (drop imageBytesOnPage1 buffer).
  split; [ exact Hw | ]. split; [ apply take_drop | ].
  fold buffer in Hlen. rewrite length_take_le by done.
  split; [ reflexivity | ]. change 7749 with (Z.of_nat imageBytesOnPage1). lia.
Qed.

Lemma SetKeyImage_success_witness :
  loadImage (env Fixture.start) "key.png" = (Some Fixture.gradient, None) /\
  (Rev2.SetKeyImage 3 "key.png" Fixture.start).2 = Returns None /\
  exists payload1 payload2,
    hid.written (device (Rev2.SetKeyImage 3 "key.png" Fixture.start).1) =
      [header1 2 ++ payload1; header2 2 ++ payload2] /\
    payload1 ++ payload2 = scanImage Fixture.gradient.
Proof.
  assert (H1 : loadImage (env Fixture.start) "key.png"
               = (Some Fixture.gradient, None)) by reflexivity.
  assert (H2 : (Rev2.SetKeyImage 3 "key.png" Fixture.start).2 = Returns None)
    by (vm_compute; reflexivity).
  destruct (SetKeyImage_success Fixture.start 3 "key.png" _ H1 H2)
    as (p1 & p2 & Hw & Hcat & _).
  split; [ exact H1 | split; [ exact H2 | ] ].
  exists p1, p2. split; [ exact Hw | exact Hcat ].
Defined.

(** An image with fewer than 2583 pixels never gets through: the call
    panics on one of its two slice expressions, or, when the device refuses
    the first write, returns that error wrapped as "failed to write page
    1"; it never returns [nil] and never writes a second page. *)
Theorem small_image_fails {W} (s : State W) key filename img :
  filename <> "" ->
  decode (env s) filename = inr img ->
  Z.max 0 (width img) * Z.max 0 (height img) < 2583 ->
  ((Rev2.SetKeyImage key filename s).2 = Panics \/
   exists e rest,
     hid.write_script (device s) = Some e :: rest /\
     (Rev2.SetKeyImage key filename s).2 =
       Returns (Some (WrapfOf (WithStackOf e) "failed to write page 1"))) /\
  (Rev2.SetKeyImage key filename s).2 <> Returns None /\
  (length (hid.written (device (Rev2.SetKeyImage key filename s).1))
   <= S (length (hid.written (device s))))%nat.
Proof.
  intros Hne Hdec Hsmall.
  pose proof (loadImage_decoded _ _ _ Hne Hdec) as Hload.
  assert (Hshort : (length (elems (imageBytesOf (env s) (Some img)))
                    < imageBytesOnPage1)%nat).
  { cbn [imageBytesOf elems]. rewrite scanImage_length.
    change imageBytesOnPage1 with (Z.to_nat 7749). nia. }
  assert (Hcases :
    ((Rev2.SetKeyImage key filename s).2 = Panics \/
     exists e rest,
       hid.write_script (device s) = Some e :: rest /\
       (Rev2.SetKeyImage key filename s).2 =
         Returns (Some (WrapfOf (WithStackOf e) "failed to write page 1"))) /\
    (length (hid.written (device (Rev2.SetKeyImage key filename s).1))
     <= S (length (hid.written (device s))))%nat).
  { unfold Rev2.SetKeyImage, sendKeyImage. rewrite Hload.
    destruct (slice_upto _ imageBytesOnPage1) as [payload1 | ];
      [ | split; [ by left | simpl; lia ] ].
    destruct (hid.write_script (device s)) as [ | [e | ] rest ] eqn:Hscript.
    - rewrite writePage_accepted by (rewrite Hscript; simpl; congruence).
      unfold slice_from. rewrite decide_False by lia.
      split; [ by left | ]. cbn [fst device with_device hid.written].
      rewrite length_app. simpl. lia.
    - rewrite (writePage_fails _ _ _ _ _ Hscript).
      split; [ right; by exists e, rest | ].
      cbn [fst device with_device hid.written]. rewrite length_app. simpl. lia.
    - rewrite writePage_accepted by (rewrite Hscript; simpl; congruence).
      unfold slice_from. rewrite decide_False by lia.
      split; [ by left | ]. cbn [fst device with_device hid.written].
      rewrite length_app. simpl. lia. }
  destruct Hcases as [Hres Hlen].
  split; [ exact Hres | ]. split; [ | exact Hlen ].
  destruct Hres as [-> | (e & rest & _ & ->)]; discriminate.
Qed.

Lemma small_image_fails_witness :
  "tiny.png" <> "" /\
  decode (env Fixture.start) "tiny.png" = inr Fixture.tiny /\
  Z.max 0 (width Fixture.tiny) * Z.max 0 (height Fixture.tiny) < 2583 /\
  (Rev2.SetKeyImage 0 "tiny.png" Fixture.start).2 <> Returns None /\
  (Rev2.SetKeyImage 0 "tiny.png" Fixture.start).2 = Panics /\
  (Rev2.SetKeyImage 0 "tiny.png" (with_device Sample.broken1 Fixture.start)).2 =
    Returns (Some (WrapfOf (WithStackOf (ErrExternal "hid: write failed"))
                           "failed to write page 1")).
Proof.
  assert (H1 : "tiny.png" <> "") by discriminate.
  assert (H2 : decode (env Fixture.start) "tiny.png" = inr Fixture.tiny)
    by reflexivity.
  assert (H3 : Z.max 0 (width Fixture.tiny) * Z.max 0 (height Fixture.tiny) < 2583)
    by reflexivity.
  destruct (small_image_fails Fixture.start 0 "tiny.png" _ H1 H2 H3)
    as (_ & H & _).
  split; [ exact H1 | split; [ exact H2 | split; [ exact H3 | split; [ exact H | ] ] ] ].
  split; vm_compute; reflexivity.
Defined.

(** An image of at least 2583 pixels on a device that accepts both writes:
    [SetKeyImage] returns [nil] after writing a first buffer of 7819 bytes
    and a second one that holds the rest of the pixels, however many there
    are; for a 72 x 72 image the second buffer is 7819 bytes as well.  The
    spare capacity left by [append] plays no part. *)
Theorem large_image_sent {W} (s : State W) key filename img :
  filename <> "" ->
  decode (env s) filename = inr img ->
  2583 <= Z.max 0 (width img) * Z.max 0 (height img) ->
  Forall (fun o => o = None) (take 2 (hid.write_script (device s))) ->
  let id := byte_of (Rev2.invertKeyOrId key + 1) in
  let page1 := header1 id ++ take imageBytesOnPage1 (scanImage img) in
  let page2 := header2 id ++ drop imageBytesOnPage1 (scanImage img) in
  Rev2.SetKeyImage key filename s =
    (with_device
       (hid.mkDevice (hid.written (device s) ++ [page1; page2])
                     (drop 2 (hid.write_script (device s)))
                     (hid.read_script (device s))) s,
     Returns None) /\
  Z.of_nat (length page1) = 7819 /\
  Z.of_nat (length page2) =
    16 + 3 * Z.max 0 (width img) * Z.max 0 (height img) - 7749.
Proof.
  intros Hne Hdec Hbig Hok id page1 page2.
  pose proof (loadImage_decoded _ _ _ Hne Hdec) as Hload.
  assert (Hlen : Z.of_nat (length (scanImage img))
                 = 3 * Z.max 0 (width img) * Z.max 0 (height img)).
  { rewrite scanImage_length. lia. }
  assert (Hfull : (imageBytesOnPage1 <= length (scanImage img))%nat).
  { change imageBytesOnPage1 with (Z.to_nat 7749). lia. }
  split; [ | split ].
  - exact (sendKeyImage_accepted id filename s _ Hload Hfull Hok).
  - unfold page1. rewrite length_app, length_take_le by done.
    change (length (header1 id)) with 70%nat.
    change imageBytesOnPage1 with (Z.to_nat 7749). lia.
  - unfold page2. rewrite length_app, length_drop.
    change (length (header2 id)) with 16%nat.
    change imageBytesOnPage1 with (Z.to_nat 7749) in *. lia.
Qed.

Lemma large_image_sent_witness :
  "key.png" <> "" /\
  decode (env Fixture.start) "key.png" = inr Fixture.gradient /\
  2583 <= Z.max 0 (width Fixture.gradient) * Z.max 0 (height Fixture.gradient) /\
  Forall (fun o => o = None) (take 2 (hid.write_script (device Fixture.start))) /\
  (Rev2.SetKeyImage 0 "key.png" Fixture.start).2 = Returns None.
Proof.
  assert (H1 : "key.png" <> "") by discriminate.
  assert (H2 : decode (env Fixture.start) "key.png" = inr Fixture.gradient)
    by reflexivity.
  assert (H3 : 2583 <= Z.max 0 (width Fixture.gradient)
                       * Z.max 0 (height Fixture.gradient))
    by (vm_compute; discriminate).
  assert (H4 : Forall (fun o : option error => o = None)
                 (take 2 (hid.write_script (device Fixture.start))))
    by constructor.
  destruct (large_image_sent Fixture.start 0 "key.png" _ H1 H2 H3 H4) as [E _].
  split; [ exact H1 | split; [ exact H2 | split; [ exact H3 | split; [ exact H4 | ] ] ] ].
  by rewrite E.
Defined.

(** A file that cannot be opened or decoded: [SetKeyImage] returns that
    error with a stack and writes nothing, the deck is as before.  The
    first revision looks at the key first, so for a key outside [0, 14] it
    reports the invalid key and not the file. *)
Theorem unreadable_file {W} (s : State W) key filename err :
  filename <> "" ->
  decode (env s) filename = inl err ->
  Rev2.SetKeyImage key filename s = (s, Returns (Some (WithStackOf err))) /\
  Rev1.SetKeyImage key filename s =
    (s, Returns (Some (WithStackOf (if decide (0 <= key <= 14) then err
                                    else ErrInvalidKey)))).
Proof.
  intros Hne Hdec. pose proof (loadImage_failed _ _ _ Hne Hdec) as Hload.
  assert (Hsend : forall id, sendKeyImage id filename s
                             = (s, Returns (Some (WithStackOf err)))).
  { intros id. unfold sendKeyImage. by rewrite Hload. }
  split; [ apply Hsend | ].
  destruct (decide (0 <= key <= 14)) as [Hin | Hout].
  - rewrite Rev1_SetKeyImage_valid by done. apply Hsend.
  - unfold Rev1.SetKeyImage.
    assert (E : Rev1.keyToInternalId key = 255).
    { destruct (decide (14 < key)) as [Hhi | Hlo]; [ by apply table_default | ].
      destruct key as [ | p | p ]; [ lia | lia | done ]. }
    by rewrite E.
Qed.

Lemma unreadable_file_witness :
  "missing.png" <> "" /\
  decode (env Fixture.start) "missing.png"
    = inl (ErrExternal "open: no such file or directory") /\
  Rev2.SetKeyImage 20 "missing.png" Fixture.start =
    (Fixture.start,
     Returns (Some (WithStackOf (ErrExternal "open: no such file or directory")))).
Proof.
  assert (H1 : "missing.png" <> "") by discriminate.
  assert (H2 : decode (env Fixture.start) "missing.png"
               = inl (ErrExternal "open: no such file or directory"))
    by reflexivity.
  exact (conj H1 (conj H2 (proj1 (unreadable_file Fixture.start 20 "missing.png"
                                    _ H1 H2)))).
Defined.

(** The key id that [SetKeyImage] sends for a valid key: the first
    revision sends the table value, which mirrors the key inside its row of
    five, lies in [0, 14] and differs for different keys; the second
    revision sends that value plus one and is otherwise the same call. *)
Theorem image_key_ids {W} (s : State W) key filename :
  0 <= key <= 14 ->
  let id := Rev1.keyToInternalId key in
  Rev1.SetKeyImage key filename s = sendKeyImage id filename s /\
  Rev2.SetKeyImage key filename s = sendKeyImage (id + 1) filename s /\
  id = 5 * (key / 5) + (4 - key mod 5) /\
  0 <= id <= 14 /\
  forall key', 0 <= key' <= 14 -> Rev1.keyToInternalId key' = id -> key' = key.
Proof.
  intros Hk id. destruct (image_id_valid key Hk) as (Hid & Hrange & Hinv).
  split; [ by apply Rev1_SetKeyImage_valid | ].
  split; [ unfold Rev2.SetKeyImage; by rewrite Hid | ].
  split; [ unfold id; key_cases Hk; reflexivity | ].
  split; [ exact Hrange | ].
  intros key' Hk' E. destruct (image_id_valid key' Hk') as (_ & _ & Hinv').
  rewrite <- Hinv', E. exact Hinv.
Qed.

Lemma image_key_ids_witness :
  0 <= 8 <= 14 /\
  Rev2.SetKeyImage 8 "" Sample.start = sendKeyImage 7 "" Sample.start.
Proof.
  assert (H : 0 <= 8 <= 14) by lia.
  exact (conj H (proj1 (proj2 (image_key_ids Sample.start 8 "" H)))).
Defined.

(** ** The registry invariant and discovery *)

Section Invariant.

Context {W : Type}.
Implicit Types (s : State W) (fn : KeyPressFn W) (key : Z).

Lemma registry_ok_sub s (h : gmap Z (KeyPressFn W)) :
  registry_ok s -> h ⊆ handlers s -> registry_ok (with_handlers h s).
Proof.
  intros Hok Hsub k [fn Hfn]. apply Hok. exists fn.
  by apply (lookup_weaken h (handlers s)).
Qed.

Lemma registry_ok_same s s' :
  registry_ok s -> handlers s' ⊆ handlers s -> registry_ok s'.
Proof.
  intros Hok Hsub k [fn Hfn]. apply Hok. exists fn.
  by apply (lookup_weaken (handlers s') (handlers s)).
Qed.

Lemma registry_ok_insert s fn key :
  registry_ok s -> valid_slot key ->
  registry_ok (with_handlers (<[key := fn]> (handlers s)) s).
Proof.
  intros Hok Hkey k Hk. simpl in Hk.
  destruct (decide (key = k)) as [<- | Hne]; [ done | ].
  rewrite lookup_insert_ne in Hk by done. by apply Hok.
Qed.

End Invariant.

(** The registry never holds a handler under a key other than the fifteen
    logical keys and the global slot 255: a deck made by
    [newStreamDeckBase] has the property, and every operation of the driver
    keeps it. *)
Theorem registry_keys_stay_valid {W} (s : State W) (fn : KeyPressFn W)
        key filename timeout :
  registry_ok s ->
  registry_ok (SetKeyHandler key fn s).1 /\
  registry_ok (ClearKeyHandler key s).1 /\
  registry_ok (SetGlobalKeyHandler fn s) /\
  registry_ok (ClearGlobalKeyHandler s) /\
  registry_ok (dispatchKey key s) /\
  registry_ok (Rev1.ProcessEvents timeout s).1 /\
  registry_ok (Rev2.ProcessEvents timeout s).1 /\
  registry_ok (Rev1.SetKeyImage key filename s).1 /\
  registry_ok (Rev2.SetKeyImage key filename s).1.
Proof.
  intros Hok.
  assert (Hevents : forall toKey, registry_ok (processEvents toKey timeout s).1).
  { intros toKey.
    destruct (processEvents_shape toKey timeout s) as (ids & out & _ & _ & E).
    cbv zeta in E. rewrite E. apply (registry_ok_same s); [ done | ].
    cbn [handlers]. apply (foldl_press_shrinks toKey ids (with_device _ s)). }
  assert (Himage : forall id, registry_ok (sendKeyImage id filename s).1).
  { intros id. destruct (sendKeyImage_effect id filename s) as (d & new & -> & _).
    apply (registry_ok_same s); done. }
  split.
  { unfold SetKeyHandler. destruct ((key <? 0) || (14 <? key)) eqn:E; [ done | ].
    apply orb_false_iff in E as [E1 E2]. apply Z.ltb_ge in E1, E2.
    apply registry_ok_insert; [ done | left; lia ]. }
  split.
  { unfold ClearKeyHandler. destruct ((key <? 0) || (14 <? key)); [ done | ].
    apply registry_ok_sub; [ done | apply delete_subseteq ]. }
  split; [ apply registry_ok_insert; [ done | by right ] | ].
  split; [ apply registry_ok_sub; [ done | apply delete_subseteq ] | ].
  split; [ apply (registry_ok_same s); [ done | apply dispatchKey_shrinks ] | ].
  split; [ apply Hevents | ]. split; [ apply Hevents | ].
  split; [ | apply Himage ].
  unfold Rev1.SetKeyImage. destruct (Rev1.keyToInternalId key =? 255); [ done | ].
  apply Himage.
Qed.

Lemma registry_keys_stay_valid_witness :
  registry_ok Sample.armed /\
  registry_ok (Rev2.ProcessEvents 0 Sample.armed).1.
Proof.
  assert (H0 : registry_ok (newStreamDeckBase Sample.env Sample.pressing 0%nat)).
  { intros k [fn Hfn]. unfold newStreamDeckBase in Hfn. cbn [handlers] in Hfn.
    by rewrite lookup_empty in Hfn. }
  destruct (registry_keys_stay_valid _ Sample.once 4 "" 0 H0) as (H1 & _).
  destruct (registry_keys_stay_valid _ Sample.keep 0 "" 0 H1) as (_ & _ & H2 & _).
  destruct (registry_keys_stay_valid _ Sample.keep 0 "" 0 H2)
    as (_ & _ & _ & _ & _ & _ & H3 & _).
  exact (conj H2 H3).
Defined.

(** [OpenStreamDeck] decides on the first enumerated device alone: a deck
    further down the list is never opened.  Without devices it returns
    [ErrNoDevices]; it never returns the value [ErrUnknownDevice] (an
    unknown product gives a fresh error that names the ids); and when it
    succeeds, the first device was opened, has product id 96, and the deck
    starts with an empty registry, an empty log and no output. *)
Theorem OpenStreamDeck_outcomes {W} (e : Env) (w : W) (devices : list DeviceInfo) :
  OpenStreamDeck e w devices = OpenStreamDeck e w (take 1 devices) /\
  OpenStreamDeck e w [] = inl ErrNoDevices /\
  OpenStreamDeck e w devices <> inl ErrUnknownDevice /\
  forall s, OpenStreamDeck e w devices = inr s ->
    exists info rest dev,
      devices = info :: rest /\ Open info = inr dev /\
      ProductID info = streamDeck15Id /\
      s = mkState e dev ∅ w [] [] /\ registry_ok s.
Proof.
  split; [ by destruct devices | ]. split; [ done | ]. split.
  - destruct devices as [ | info rest ]; [ done | ]. simpl.
    destruct (Open info); [ done | ].
    by destruct (ProductID info =? streamDeck15Id).
  - intros s Hs. destruct devices as [ | info rest ]; [ done | ].
    simpl in Hs. destruct (Open info) as [err | dev] eqn:Hopen; [ done | ].
    destruct (Z.eqb_spec (ProductID info) streamDeck15Id) as [Hid | ]; [ | done ].
    injection Hs as <-. exists info, rest, dev.
    repeat split; try done.
    intros k [fn Hfn]. unfold newStreamDeckBase in Hfn. cbn [handlers] in Hfn.
    by rewrite lookup_empty in Hfn.
Qed.

(** [ClearKeyImage] blanks a key without looking at any file: on a device
    that accepts both writes it returns [nil] after writing the two pages
    of the key with nothing but zero bytes behind the headers, for every
    key byte and in every environment. *)
Theorem ClearKeyImage_blank {W} (s : State W) key :
  Forall (fun o => o = None) (take 2 (hid.write_script (device s))) ->
  let id := byte_of (Rev2.invertKeyOrId key + 1) in
  Rev2.ClearKeyImage key s =
    (with_device
       (hid.mkDevice (hid.written (device s)
                        ++ [header1 id ++ replicate (Z.to_nat 7749) 0;
                            header2 id ++ replicate (Z.to_nat 7803) 0])
                     (drop 2 (hid.write_script (device s)))
                     (hid.read_script (device s))) s,
     Returns None).
Proof.
  intros Hok id. unfold Rev2.ClearKeyImage, Rev2.SetKeyImage. fold id.
  assert (Hlen : (imageBytesOnPage1
                  <= length (elems (imageBytesOf (env s) None)))%nat).
  { cbn [imageBytesOf elems]. rewrite length_replicate.
    change imageBytesOnPage1 with (Z.to_nat 7749). lia. }
  rewrite (sendKeyImage_accepted id "" s None (loadImage_blank _) Hlen Hok).
  cbn [imageBytesOf elems].
  replace (take imageBytesOnPage1 (replicate (72 * 72 * 3) 0))
    with (replicate (Z.to_nat 7749) 0) by (vm_compute; reflexivity).
  replace (drop imageBytesOnPage1 (replicate (72 * 72 * 3) 0))
    with (replicate (Z.to_nat 7803) 0) by (vm_compute; reflexivity).
  reflexivity.
Qed.

Lemma ClearKeyImage_blank_witness :
  Forall (fun o => o = None) (take 2 (hid.write_script (device Fixture.start))) /\
  (Rev2.ClearKeyImage 9 Fixture.start).2 = Returns None.
Proof.
  assert (H : Forall (fun o : option error => o = None)
                (take 2 (hid.write_script (device Fixture.start))))
    by constructor.
  split; [ exact H | ]. by rewrite (ClearKeyImage_blank Fixture.start 9 H).
Defined.


Lemma Rev1_write_failures_witness :
  0 <= 0 <= 14 /\
  (Rev1.SetKeyImage 0 "" (with_device Sample.broken1 Sample.start)).2 =
    Returns (Some (WrapfOf (WithStackOf (ErrExternal "hid: write failed"))
                           "failed to write page 1")) /\
  (Rev1.SetKeyImage 0 "" (with_device Sample.broken2 Sample.start)).2 =
    Returns (Some (WrapfOf (WithStackOf (ErrExternal "hid: write failed"))
                           "failed to write page 2")).
Proof.
  assert (Hk : 0 <= 0 <= 14) by lia.
  destruct (Rev1_write_failures (with_device Sample.broken1 Sample.start) 0 ""
              None _ Hk (loadImage_blank _) (blank_page1 _)) as [H1 _].
  destruct (Rev1_write_failures (with_device Sample.broken2 Sample.start) 0 ""
              None _ Hk (loadImage_blank _) (blank_page1 _)) as [_ H2].
  rewrite (H1 _ _ eq_refl), (H2 _ _ _ (blank_page2 _) eq_refl).
  repeat split; lia.
Defined.

(** C5: when [SetKeyImage] is given no image source ([filename] empty),
    [loadImage] yields no image and the pixel buffer that the call builds is
    [72 * 72 * 3 = 15552] bytes long with every byte zero.  That buffer is
    what the call sends: on a device that accepts the two writes it returns
    [nil] after writing the first header followed by the first 7749 bytes
    of the buffer and the second header followed by the rest, and the two
    payloads together are the buffer again. *)
Theorem blank_pixel_buffer {W} (e : Env) (s : State W) key :
  Forall (fun o => o = None) (take 2 (hid.write_script (device s))) ->
  let id := byte_of (Rev2.invertKeyOrId key + 1) in
  let buffer := elems (imageBytesOf (env s) None) in
  loadImage e "" = (None, None) /\
  Z.of_nat (length (elems (imageBytesOf e None))) = 72 * 72 * 3 /\
  72 * 72 * 3 = 15552 /\
  Forall (fun b => b = 0) (elems (imageBytesOf e None)) /\
  (forall i b, elems (imageBytesOf e None) !! i = Some b -> b = 0) /\
  buffer = elems (imageBytesOf e None) /\
  Rev2.SetKeyImage key "" s =
    (with_device
       (hid.mkDevice (hid.written (device s)
                        ++ [header1 id ++ take imageBytesOnPage1 buffer;
                            header2 id ++ drop imageBytesOnPage1 buffer])
                     (drop 2 (hid.write_script (device s)))
                     (hid.read_script (device s))) s,
     Returns None) /\
  take imageBytesOnPage1 buffer ++ drop imageBytesOnPage1 buffer = buffer /\
  Z.of_nat (length (take imageBytesOnPage1 buffer)) = 7749 /\
  Z.of_nat (length (drop imageBytesOnPage1 buffer)) = 15552 - 7749.
Proof.
  intros Hok id buffer.
  assert (Hlen : length buffer = Z.to_nat 15552).
  { unfold buffer. cbn [imageBytesOf elems]. by rewrite length_replicate. }
  assert (Hfull : (imageBytesOnPage1 <= length buffer)%nat).
  { rewrite Hlen. change imageBytesOnPage1 with (Z.to_nat 7749). lia. }
  split; [ reflexivity | ].
  split; [ cbn [imageBytesOf elems]; rewrite length_replicate; lia | ].
  split; [ reflexivity | ].
  split; [ cbn [imageBytesOf elems]; apply Forall_replicate; reflexivity | ].
  split; [ cbn [imageBytesOf elems]; by intros i b [? _]%lookup_replicate | ].
  split; [ reflexivity | ].
  split; [ exact (sendKeyImage_accepted id "" s None (loadImage_blank _) Hfull Hok) | ].
  split; [ apply take_drop | ].
  rewrite length_take_le by exact Hfull. rewrite length_drop, Hlen.
  change imageBytesOnPage1 with (Z.to_nat 7749). lia.
Qed.

Lemma blank_pixel_buffer_witness :
  Forall (fun o => o = None) (take 2 (hid.write_script (device Sample.start))) /\
  (Rev2.SetKeyImage 0 "" Sample.start).2 = Returns None /\
  Forall (fun page => Forall (fun b => b = 0) (drop 70 page)
                      \/ Forall (fun b => b = 0) (drop 16 page))
         (hid.written (device (Rev2.SetKeyImage 0 "" Sample.start).1)).
Proof.
  assert (H : Forall (fun o : option error => o = None)
                (take 2 (hid.write_script (device Sample.start))))
    by constructor.
  destruct (blank_pixel_buffer Sample.env Sample.start 0 H)
    as (_ & _ & _ & Hzero & _ & Hbuf & E & _).
  split; [ exact H | ]. rewrite E. split; [ reflexivity | ].
  cbn [fst device with_device hid.written]. rewrite Hbuf.
  change (hid.written (device Sample.start)) with (@nil (list Z)).
  rewrite app_nil_l. constructor; [ | constructor; [ | constructor ] ].
  - left. change 70%nat with (length (header1 (byte_of (Rev2.invertKeyOrId 0 + 1)))).
    rewrite drop_app_length. by apply Forall_take.
  - right. change 16%nat with (length (header2 (byte_of (Rev2.invertKeyOrId 0 + 1)))).
    rewrite drop_app_length. by apply Forall_drop.
Defined.

Section Idle.

Context {W : Type}.
Implicit Types (s st : State W) (toKey : Z -> Z).

Lemma foldl_press_idle toKey ids : forall st,
  handlers st !! 255 = None ->
  Forall (fun id => handlers st !! toKey (byte_of id) = None) ids ->
  foldl (press toKey) st ids = st.
Proof.
  induction ids as [ | id ids IH ]; intros st Hglobal Hall; [ done | ].
  apply Forall_cons in Hall as [Hid Hall]. simpl.
  assert (E : press toKey st id = st).
  { unfold press. rewrite (dispatchKey_absent _ _ Hglobal).
    by apply dispatchKey_absent. }
  rewrite E. by apply IH.
Qed.

End Idle.

(** When neither the global slot nor the slot of any pressed key holds a
    handler, as on a freshly opened deck, [ProcessEvents] is a plain read:
    it takes exactly one entry from the pending reads, writes nothing,
    invokes nothing, leaves registry and caller's state alone and prints at
    most one line; its result is the read error, wrapped, or [nil]. *)
Theorem ProcessEvents_without_handlers {W} (s : State W) timeout d report bytes err :
  hid.ReadTimeout (replicate 16 0) timeout (device s)
    = (d, (report, bytes, err)) ->
  handlers s !! 255 = None ->
  (forall id, id ∈ pressed report ->
     handlers s !! Rev2.invertKeyOrId (byte_of id) = None) ->
  d = hid.mkDevice (hid.written (device s)) (hid.write_script (device s))
                   (tail (hid.read_script (device s))) /\
  exists out,
    (length out <= 1)%nat /\
    Rev2.ProcessEvents timeout s =
      (mkState (env s) d (handlers s) (world s) (calls s) (stdout s ++ out),
       errors.Wrapf err "error reading key press").
Proof.
  intros Hread Hglobal Hkeys.
  split.
  { pose proof (ReadTimeout_device (replicate 16 0) timeout (device s)) as Hd.
    by rewrite Hread in Hd. }
  assert (Hsame : with_device d s
            = mkState (env s) d (handlers s) (world s) (calls s) (stdout s ++ [])).
  { unfold with_device. by rewrite app_nil_r. }
  unfold Rev2.ProcessEvents.
  destruct err as [e | ].
  { exists []. split; [ simpl; lia | ].
    by rewrite (processEvents_read_error _ _ _ _ _ _ _ Hread), Hsame. }
  destruct (decide (0 < bytes)) as [Hpos | Hle].
  2: { exists []. split; [ simpl; lia | ].
       by rewrite (processEvents_no_bytes _ _ _ _ _ _ Hread), Hsame by lia. }
  pose proof (ReadTimeout_length _ _ _ _ _ _ _ Hread) as Hlen.
  rewrite length_replicate in Hlen.
  destruct report as [ | reportId report ]; [ done | ].
  destruct (decide (reportId = 1)) as [-> | Hne].
  - exists []. split; [ simpl; lia | ].
    rewrite (processEvents_key_report _ _ _ _ _ _ Hread Hpos eq_refl).
    rewrite foldl_press_idle; [ by rewrite Hsame | exact Hglobal | ].
    apply Forall_forall. intros id Hin. by apply Hkeys.
  - exists [unexpected_report reportId]. split; [ simpl; lia | ].
    by rewrite (processEvents_other_report _ _ _ _ _ _ _ Hread Hpos eq_refl Hne).
Qed.

Lemma ProcessEvents_without_handlers_witness :
  let s := newStreamDeckBase Sample.env Sample.pressing 0%nat in
  hid.ReadTimeout (replicate 16 0) 0 (device s)
    = (hid.mkDevice [] [] [hid.ReadData [3; 1]; hid.ReadData []],
       ([1; 1; 0; 0; 1; 0; 0; 0; 0; 0; 0; 0; 0; 0; 0; 0], 5, None)) /\
  handlers s !! 255 = None /\
  calls (Rev2.ProcessEvents 0 s).1 = [] /\
  hid.written (device (Rev2.ProcessEvents 0 s).1) = [].
Proof.
  intros s.
  assert (Hread : hid.ReadTimeout (replicate 16 0) 0 (device s)
    = (hid.mkDevice [] [] [hid.ReadData [3; 1]; hid.ReadData []],
       ([1; 1; 0; 0; 1; 0; 0; 0; 0; 0; 0; 0; 0; 0; 0; 0], 5, None)))
    by reflexivity.
  assert (Hg : handlers s !! 255 = None) by apply lookup_empty.
  assert (Hk : forall id,
            id ∈ pressed [1; 1; 0; 0; 1; 0; 0; 0; 0; 0; 0; 0; 0; 0; 0; 0] ->
            handlers s !! Rev2.invertKeyOrId (byte_of id) = None)
    by (intros id _; apply lookup_empty).
  destruct (ProcessEvents_without_handlers s 0 _ _ _ _ Hread Hg Hk)
    as (_ & out & _ & E).
  split; [ exact Hread | split; [ exact Hg | ] ].
  rewrite E. split; reflexivity.
Defined.
